(** * A 3x3x3 cube in a character grid: rotation algebra, cubelets, twists, camera

    Shallow embedding of the Python sources

    - [src/cube.py]           (rotation matrices [Rx], [Ry], [Rz]; the first
                               [project3d] and its caller [Artist.line]),
    - [src/cube/cube.py]      (class [Cube]),
    - [src/cube/artist.py]    (class [Artist]),
    - [src/cube/__main__.py]  ([rotate_face] and the key dispatch of
                               [main_event_loop]).

    Number model.  The program computes with numpy [float64].  Here every
    scalar is a real number of the Standard Library, so [cos (PI / 2)] is
    exactly [0]; rounding is abstracted, and the tolerances the
    specification mentions are what absorbs it.  Equalities proved below are
    equalities of real arithmetic. *)

From Stdlib Require Import Reals Lra Lia List ZArith Ascii String Bool.
From Stdlib Require Import Permutation Sorted.
Import ListNotations.

Local Open Scope R_scope.

(** ** numpy arrays of three floats and 3x3 matrices *)

Record vec : Type := V3 { vx : R; vy : R; vz : R }.

Definition vadd (u v : vec) : vec := V3 (vx u + vx v) (vy u + vy v) (vz u + vz v).
Definition vsub (u v : vec) : vec := V3 (vx u - vx v) (vy u - vy v) (vz u - vz v).
Definition vneg (u : vec) : vec := V3 (- vx u) (- vy u) (- vz u).
(** [k * v] for a scalar [k] *)
Definition vscale (k : R) (v : vec) : vec := V3 (k * vx v) (k * vy v) (k * vz v).
(** [v / k] *)
Definition vdiv (v : vec) (k : R) : vec := V3 (vx v / k) (vy v / k) (vz v / k).
(** [np.inner(u, v)], [u.dot(v)] *)
Definition inner (u v : vec) : R := vx u * vx v + vy u * vy v + vz u * vz v.

(** A matrix is given by its three rows, as in the nested-list literals of
    the source. *)
Record mat : Type := M3 { row0 : vec; row1 : vec; row2 : vec }.

(** [R.dot(pt)], [R @ pt] *)
Definition mdot (M : mat) (v : vec) : vec :=
  V3 (inner (row0 M) v) (inner (row1 M) v) (inner (row2 M) v).

Definition col0 (M : mat) : vec := V3 (vx (row0 M)) (vx (row1 M)) (vx (row2 M)).
Definition col1 (M : mat) : vec := V3 (vy (row0 M)) (vy (row1 M)) (vy (row2 M)).
Definition col2 (M : mat) : vec := V3 (vz (row0 M)) (vz (row1 M)) (vz (row2 M)).

Definition transpose (M : mat) : mat := M3 (col0 M) (col1 M) (col2 M).

(** [A @ B] *)
Definition matmul (A B : mat) : mat :=
  let line (a : vec) := V3 (inner a (col0 B)) (inner a (col1 B)) (inner a (col2 B)) in
  M3 (line (row0 A)) (line (row1 A)) (line (row2 A)).

(** ** Rotation matrices ([src/cube.py], lines 12-42)

    The package imports them as [rotation.Rx], [rotation.Ry], [rotation.Rz]. *)
Module rotation.

Definition Rx (theta : R) : mat :=
  M3 (V3 1 0 0)
     (V3 0 (cos theta) (sin theta))
     (V3 0 (- sin theta) (cos theta)).

Definition Ry (theta : R) : mat :=
  M3 (V3 (cos theta) 0 (- sin theta))
     (V3 0 1 0)
     (V3 (sin theta) 0 (cos theta)).

Definition Rz (theta : R) : mat :=
  M3 (V3 (cos theta) (sin theta) 0)
     (V3 (- sin theta) (cos theta) 0)
     (V3 0 0 1).

End rotation.

(** The three axes, "x", "y" and "z" in the source. *)
Inductive axis : Type := axis_x | axis_y | axis_z.

(** The constructor selected by the axis name. *)
Definition rotation_about (a : axis) : R -> mat :=
  match a with
  | axis_x => rotation.Rx
  | axis_y => rotation.Ry
  | axis_z => rotation.Rz
  end.

(** Following the specification's words: the standard right-handed
    (counter-clockwise, active) rotation matrices, which send the second
    axis of the rotation plane towards the third: about x, (0,1,0) goes to
    (0, cos theta, sin theta). *)
Module right_handed.

Definition Rx (theta : R) : mat :=
  M3 (V3 1 0 0)
     (V3 0 (cos theta) (- sin theta))
     (V3 0 (sin theta) (cos theta)).

Definition Ry (theta : R) : mat :=
  M3 (V3 (cos theta) 0 (sin theta))
     (V3 0 1 0)
     (V3 (- sin theta) 0 (cos theta)).

Definition Rz (theta : R) : mat :=
  M3 (V3 (cos theta) (- sin theta) 0)
     (V3 (sin theta) (cos theta) 0)
     (V3 0 0 1).

Definition about (a : axis) : R -> mat :=
  match a with
  | axis_x => Rx
  | axis_y => Ry
  | axis_z => Rz
  end.

End right_handed.

(** ** Python dictionaries with string keys, in insertion order *)

Definition dict (A : Type) : Type := list (string * A).

(** [d[k]]; [None] stands for [KeyError]. *)
Fixpoint dict_get {A : Type} (d : dict A) (k : string) : option A :=
  match d with
  | [] => None
  | (k', a) :: d' => if String.eqb k k' then Some a else dict_get d' k
  end.

(** [{k: f(v) for k, v in d.items()}] *)
Definition dict_map {A B : Type} (f : A -> B) (d : dict A) : dict B :=
  map (fun kv => (fst kv, f (snd kv))) d.

(** ** [sorted(l, key=lambda x: x[1], reverse=True)]

    Python's sort is stable, also with [reverse=True]: entries with equal
    keys stay in their original order.  A stable insertion sort in
    descending key order has the same result. *)
Fixpoint insert_desc {A : Type} (x : A * R) (s : list (A * R)) : list (A * R) :=
  match s with
  | [] => [x]
  | y :: s' => if Rlt_dec (snd x) (snd y) then y :: insert_desc x s' else x :: s
  end.

Definition sorted_reverse {A : Type} (l : list (A * R)) : list (A * R) :=
  fold_right insert_desc [] l.

(** ** The colour ids of the renderer ([Screen.COLOUR_...]) *)
Inductive Colour : Type :=
| COLOUR_BLACK | COLOUR_RED | COLOUR_GREEN | COLOUR_YELLOW
| COLOUR_BLUE | COLOUR_MAGENTA | COLOUR_CYAN | COLOUR_WHITE.

(** ** class [Cube] ([src/cube/cube.py]) *)
Module Cube.

(** The slots of the class. *)
Record t : Type := mk {
  front : list vec;
  back : list vec;
  normal_vectors : dict vec;
  colours : dict Colour;
  position : vec
}.

(** [Cube.__init__] *)
Definition init (position : vec) : t :=
  let front := [V3 (-1) 1 1; V3 1 1 1; V3 1 (-1) 1; V3 (-1) (-1) 1] in
  let back := [V3 (-1) 1 (-1); V3 1 1 (-1); V3 1 (-1) (-1); V3 (-1) (-1) (-1)] in
  mk (map (fun pt => vadd (vdiv pt 2) position) front)
     (map (fun pt => vadd (vdiv pt 2) position) back)
     [("front", V3 0 0 1); ("back", V3 0 0 (-1));
      ("left", V3 (-1) 0 0); ("right", V3 1 0 0);
      ("top", V3 0 1 0); ("bottom", V3 0 (-1) 0)]%string
     [("front", COLOUR_RED); ("back", COLOUR_MAGENTA);
      ("left", COLOUR_YELLOW); ("right", COLOUR_WHITE);
      ("top", COLOUR_GREEN); ("bottom", COLOUR_BLUE)]%string
     position.

(** [Cube.get_face_colour]; [None] stands for the [IndexError] of [[0]] on
    an empty list and the [KeyError] of the final lookup. *)
Definition get_face_colour (self : t) (face_normal : vec) : option Colour :=
  let face_list :=
    map (fun fn => (fst fn, inner face_normal (snd fn))) (normal_vectors self) in
  match sorted_reverse face_list with
  | [] => None
  | best :: _ => dict_get (colours self) (fst best)
  end.

(** [Cube.__rotation_update__] *)
Definition rotation_update (R : mat) (self : t) : t :=
  mk (map (mdot R) (front self))
     (map (mdot R) (back self))
     (dict_map (mdot R) (normal_vectors self))
     (colours self)
     (mdot R (position self)).

Definition rotate_x (self : t) (theta : R) : t := rotation_update (rotation.Rx theta) self.
Definition rotate_y (self : t) (theta : R) : t := rotation_update (rotation.Ry theta) self.
Definition rotate_z (self : t) (theta : R) : t := rotation_update (rotation.Rz theta) self.

(** [getattr(Cube, "rotate_" + axis)] *)
Definition rotate (a : axis) : t -> R -> t :=
  match a with
  | axis_x => rotate_x
  | axis_y => rotate_y
  | axis_z => rotate_z
  end.

End Cube.

(** ** numpy arrays of extent 3

    [rubik_cube] is an object array of shape (3, 3, 3); the shape never
    changes, so an axis of extent 3 is a record of three entries and the
    valid indices 0, 1, 2 form a type.  Each of the 27 cells holds its own
    [Cube] object (no two cells share one), so a cell can hold the cube's
    state and mutation in place becomes a write to the cell. *)

Inductive ix : Type := i0 | i1 | i2.

Definition ix_all : list ix := [i0; i1; i2].

(** The index as a number, and the mirrored index [2 - i]. *)
Definition ix_nat (i : ix) : nat :=
  match i with i0 => 0 | i1 => 1 | i2 => 2 end.

Definition ix_rev (i : ix) : ix :=
  match i with i0 => i2 | i1 => i1 | i2 => i0 end.

Record arr3 (A : Type) : Type := A3 { at0 : A; at1 : A; at2 : A }.
Arguments A3 {A} _ _ _.
Arguments at0 {A} _.
Arguments at1 {A} _.
Arguments at2 {A} _.

Definition get {A : Type} (a : arr3 A) (i : ix) : A :=
  match i with i0 => at0 a | i1 => at1 a | i2 => at2 a end.

Definition set {A : Type} (a : arr3 A) (i : ix) (x : A) : arr3 A :=
  match i with
  | i0 => A3 x (at1 a) (at2 a)
  | i1 => A3 (at0 a) x (at2 a)
  | i2 => A3 (at0 a) (at1 a) x
  end.

Definition tabulate {A : Type} (f : ix -> A) : arr3 A := A3 (f i0) (f i1) (f i2).

Definition amap {A B : Type} (f : A -> B) (a : arr3 A) : arr3 B :=
  A3 (f (at0 a)) (f (at1 a)) (f (at2 a)).

Definition arr2 (A : Type) : Type := arr3 (arr3 A).
Definition grid : Type := arr3 (arr3 (arr3 Cube.t)).

Definition get2 {A : Type} (m : arr2 A) (a b : ix) : A := get (get m a) b.
Definition get3 (g : grid) (i j k : ix) : Cube.t := get (get (get g i) j) k.

(** [np.flip(m, axis)] of a 3x3 array, [axis] 0 or 1 *)
Definition reversed {A : Type} (a : arr3 A) : arr3 A := A3 (at2 a) (at1 a) (at0 a).

Definition flip {A : Type} (m : arr2 A) (ax : nat) : arr2 A :=
  match ax with
  | O => reversed m
  | _ => amap reversed m
  end.

(** [np.transpose] of a 3x3 array with its two axes swapped *)
Definition transpose2 {A : Type} (m : arr2 A) : arr2 A :=
  tabulate (fun a => tabulate (fun b => get2 m b a)).

(** [np.rot90(m, k)] with the default [axes=(0, 1)], as numpy writes it:
    [k %= 4]; 0 gives [m], 2 gives [flip(flip(m, 0), 1)], 1 gives
    [transpose(flip(m, 1))] and 3 gives [flip(transpose(m), 1)]. *)
Definition rot90 {A : Type} (m : arr2 A) (k : Z) : arr2 A :=
  let k := (k mod 4)%Z in
  if (k =? 0)%Z then m
  else if (k =? 2)%Z then flip (flip m 0) 1
  else if (k =? 1)%Z then transpose2 (flip m 1)
  else flip (transpose2 m) 1.

(** ** Slices of the assembly

    A basic slice is a view: reading it reads the cells of [rubik_cube],
    assigning to it ([face[:] = ...]) writes them.  numpy copies the right
    hand side first when it overlaps the target, so the assignment reads the
    old cells. *)
Record slice : Type := Slice {
  view : grid -> arr2 Cube.t;
  assign : grid -> arr2 Cube.t -> grid
}.

(** [rubik_cube[i]] *)
Definition slice_0 (i : ix) : slice :=
  Slice (fun g => get g i) (fun g s => set g i s).

(** [rubik_cube[:, j]] *)
Definition slice_1 (j : ix) : slice :=
  Slice (fun g => amap (fun plane => get plane j) g)
        (fun g s => tabulate (fun a => set (get g a) j (get s a))).

(** [rubik_cube[:, :, k]] *)
Definition slice_2 (k : ix) : slice :=
  Slice (fun g => amap (amap (fun line => get line k)) g)
        (fun g s => tabulate (fun a => tabulate (fun b =>
                      set (get (get g a) b) k (get2 s a b)))).

(** ** [rotate_face] ([src/cube/__main__.py], lines 21-32) *)
Definition rotate_face (face : slice) (ax : axis) (clockwise : bool) (rubik_cube : grid)
  : grid :=
  let direction : Z := if clockwise then 1%Z else (-1)%Z in
  (* for cube in face.flatten(): rotate(cube, direction * np.pi / 2) *)
  let rubik_cube :=
    assign face rubik_cube
      (amap (amap (fun cube => Cube.rotate ax cube (IZR direction * PI / 2)))
            (view face rubik_cube)) in
  let direction : Z :=
    match ax with
    | axis_z => (direction * -1)%Z
    | _ => direction
    end in
  (* face[:] = np.rot90(face, -direction) *)
  assign face rubik_cube (rot90 (view face rubik_cube) (- direction)).

(** ** The assembly at start-up ([main_event_loop], lines 41-44) *)

(** [itertools.product] of three sequences *)
Definition product {A : Type} (xs ys zs : list A) : list (A * A * A) :=
  flat_map (fun x => flat_map (fun y => map (fun z => (x, y, z)) zs) ys) xs.

(** [.reshape(3, 3, 3)] of a flat sequence, in C order.  numpy demands 27
    entries; [d] fills in for a missing one and is never read below. *)
Definition reshape333 {A : Type} (d : A) (l : list A) : arr3 (arr3 (arr3 A)) :=
  tabulate (fun i => tabulate (fun j => tabulate (fun k =>
    nth (9 * ix_nat i + 3 * ix_nat j + ix_nat k) l d))).

Definition rubik_cube : grid :=
  reshape333 (Cube.init (V3 0 0 0))
    (map (fun coord => match coord with (x, y, z) => Cube.init (V3 x y z) end)
         (product [-1; 0; 1] [1; 0; -1] [1; 0; -1])).

(** ** [KeyboardCommand] ([src/cube/data_structures.py]) *)
Definition ord (c : ascii) : Z := Z.of_N (N_of_ascii c).

Module KeyboardCommand.
Definition rotate_front_ccw : Z := ord "f".
Definition rotate_front_cw : Z := ord "F".
Definition rotate_top_ccw : Z := ord "t".
Definition rotate_top_cw : Z := ord "T".
Definition rotate_middle_ccw : Z := ord "m".
Definition rotate_middle_cw : Z := ord "M".
Definition rotate_back_ccw : Z := ord "b".
Definition rotate_back_cw : Z := ord "B".
Definition rotate_bottom_ccw : Z := ord "d".
Definition rotate_bottom_cw : Z := ord "D".
Definition rotate_left_ccw : Z := ord "l".
Definition rotate_left_cw : Z := ord "L".
Definition rotate_right_ccw : Z := ord "r".
Definition rotate_right_cw : Z := ord "R".
Definition reset_view : Z := ord "z".
Definition help : Z := ord "h".
Definition quit : Z := ord "q".
End KeyboardCommand.

(** ** The key dispatch of [main_event_loop] (lines 58-97), as far as it
    touches the assembly.  [quit] leaves the loop and is handled by
    [run_keys]; [reset_view] and [help] do not touch the cubes. *)
Definition on_key (key : Z) (rubik_cube : grid) : grid :=
  let pressed (c : Z) := (key =? c)%Z in
  if pressed KeyboardCommand.rotate_front_ccw then rotate_face (slice_2 i0) axis_z false rubik_cube
  else if pressed KeyboardCommand.rotate_front_cw then rotate_face (slice_2 i0) axis_z true rubik_cube
  else if pressed KeyboardCommand.rotate_top_cw then rotate_face (slice_1 i0) axis_y true rubik_cube
  else if pressed KeyboardCommand.rotate_top_ccw then rotate_face (slice_1 i0) axis_y false rubik_cube
  else if pressed KeyboardCommand.rotate_middle_ccw then rotate_face (slice_2 i1) axis_z false rubik_cube
  else if pressed KeyboardCommand.rotate_middle_cw then rotate_face (slice_2 i1) axis_z true rubik_cube
  else if pressed KeyboardCommand.rotate_back_ccw then rotate_face (slice_2 i2) axis_z false rubik_cube
  else if pressed KeyboardCommand.rotate_back_cw then rotate_face (slice_2 i2) axis_z true rubik_cube
  else if pressed KeyboardCommand.rotate_bottom_ccw then rotate_face (slice_1 i2) axis_y false rubik_cube
  else if pressed KeyboardCommand.rotate_bottom_cw then rotate_face (slice_1 i2) axis_y true rubik_cube
  else if pressed KeyboardCommand.rotate_left_ccw then rotate_face (slice_0 i0) axis_x false rubik_cube
  else if pressed KeyboardCommand.rotate_left_cw then rotate_face (slice_0 i0) axis_x true rubik_cube
  else if pressed KeyboardCommand.rotate_right_ccw then rotate_face (slice_0 i2) axis_x false rubik_cube
  else if pressed KeyboardCommand.rotate_right_cw then rotate_face (slice_0 i2) axis_x true rubik_cube
  else rubik_cube.

(** The assembly after a sequence of key events. *)
Fixpoint run_keys (keys : list Z) (rubik_cube : grid) : grid :=
  match keys with
  | [] => rubik_cube
  | key :: keys' =>
      if (key =? KeyboardCommand.quit)%Z then rubik_cube
      else run_keys keys' (on_key key rubik_cube)
  end.

(** ** The renderer, as far as the camera needs it *)
Record Screen : Type := { width : Z; height : Z }.

(** The calls [screen.move(x, y)] and [screen.draw(x, y)]. *)
Inductive screen_call : Type :=
| move (x y : R)
| draw (x y : R).

(** ** class [Artist] ([src/cube/artist.py]) *)
Definition DISTANCE_TO_CAMERA : R := 6.

Module Artist.

Record t : Type := mk {
  screen : Screen;
  h : Z;
  w : Z;
  cx : R;
  cy : R;
  camera_position : vec;
  camera_x : vec;
  camera_y : vec;
  camera_z : vec
}.

(** [Artist.set_initial_camera] *)
Definition set_initial_camera (self : t) : t :=
  let R := matmul (rotation.Ry (30 / 180 * PI)) (rotation.Rx (30 / 180 * PI)) in
  mk (screen self) (h self) (w self) (cx self) (cy self)
     (mdot R (V3 0 0 DISTANCE_TO_CAMERA))
     (mdot R (V3 1 0 0))
     (mdot R (V3 0 1 0))
     (vneg (mdot R (V3 0 0 1))).

(** [Artist.__init__]; the camera slots are first assigned by
    [set_initial_camera], the zero vectors only fill the record until
    then. *)
Definition init (screen : Screen) : t :=
  let o := V3 0 0 0 in
  set_initial_camera
    (mk screen (height screen) (width screen)
        (IZR (width screen) / 2) (IZR (height screen) / 2) o o o o).

(** [Artist.project3d]: no test of the denominator, always an array *)
Definition project3d (self : t) (point : vec) : R * R :=
  let camera_position := camera_position self in
  let camera_z := camera_z self in
  let P :=
    vadd (vscale (1 / inner camera_z (vsub point camera_position))
                 (vsub point camera_position))
         camera_position in
  let x := inner P (camera_x self) in
  let y := inner P (camera_y self) in
  (cx self * (1 + x), cy self * (1 - y)).

(** [Artist.line]: the calls it makes on the screen *)
Definition line (self : t) (pt1 pt2 : vec) : list screen_call :=
  [ move (fst (project3d self pt1)) (snd (project3d self pt1));
    draw (fst (project3d self pt2)) (snd (project3d self pt2)) ].

End Artist.

(** ** The first version of the camera ([src/cube.py], lines 46-124) *)
Module Legacy.

(** [project3d]; [None] is Python's [None] *)
Definition project3d (point camera_position camera_x camera_y camera_z : vec)
  : option (R * R) :=
  if Rlt_dec (Rabs (inner camera_z (vsub point camera_position))) 1e-6 then None
  else
    let P :=
      vadd (vscale (1 / inner camera_z (vsub point camera_position))
                   (vsub point camera_position))
           camera_position in
    Some (inner P camera_x, inner P camera_y).

Record Artist : Type := mkArtist {
  h : Z;
  w : Z;
  cx : R;
  cy : R;
  camera_position : vec;
  camera_x : vec;
  camera_y : vec;
  camera_z : vec
}.

(** [Artist.line].  [x, y = project3d(...)] unpacks the result without
    looking at it: on [None] Python raises [TypeError], which nothing
    catches; that outcome is [None] here. *)
Definition line (self : Artist) (pt1 pt2 : vec) : option (list screen_call) :=
  match project3d pt1 (camera_position self) (camera_x self) (camera_y self)
                  (camera_z self) with
  | None => None
  | Some (x, y) =>
      let first := move (cx self * (1 + x)) (cy self * (1 + y)) in
      match project3d pt2 (camera_position self) (camera_x self) (camera_y self)
                      (camera_z self) with
      | None => None
      | Some (x, y) => Some [first; draw (cx self * (1 + x)) (cy self * (1 + y))]
      end
  end.

End Legacy.

(** ** The mouse branch of [main_event_loop] (lines 98-127) *)

(** Lines 109-122: the camera derived from the accumulated drag [camera_2d]
    (the specification's [update_from_drag]). *)
Definition update_from_drag (screen : Screen) (camera_2d : Z * Z) (artist : Artist.t)
  : Artist.t :=
  let alpha := IZR (fst camera_2d) / IZR (width screen) * PI in
  let beta := IZR (snd camera_2d) / IZR (height screen) * PI in
  let R := matmul (rotation.Ry alpha) (rotation.Rx beta) in
  let camera_x := mdot R (V3 1 0 0) in
  let camera_y := mdot R (V3 0 1 0) in
  let camera_z := vneg (mdot R (V3 0 0 1)) in
  Artist.mk (Artist.screen artist) (Artist.h artist) (Artist.w artist)
            (Artist.cx artist) (Artist.cy artist)
            (vscale DISTANCE_TO_CAMERA (vneg camera_z))
            camera_x camera_y camera_z.

Record mouse_state : Type := MouseState {
  artist : Artist.t;
  camera_2d : Z * Z;
  start_pos : Z * Z;
  auto_mouse : bool
}.

(** The loop's variables before the first event. *)
Definition mouse_start (screen : Screen) : mouse_state :=
  MouseState (Artist.init screen) (0, 0)%Z (0, 0)%Z true.

Definition on_mouse (screen : Screen) (mouse_x mouse_y mouse_buttons : Z) (st : mouse_state)
  : mouse_state :=
  if negb (mouse_buttons =? 0)%Z then
    MouseState (artist st) (camera_2d st) (mouse_x, mouse_y) (negb (auto_mouse st))
  else if auto_mouse st then
    let end_pos := (mouse_x, mouse_y) in
    let camera_2d :=
      (fst (camera_2d st) + (fst end_pos - fst (start_pos st)),
       snd (camera_2d st) + (snd end_pos - snd (start_pos st)))%Z in
    MouseState (update_from_drag screen camera_2d (artist st)) camera_2d end_pos
               (auto_mouse st)
  else st.

(** * Notions used in the statements *)

(** What a quarter turn does to a vector: the images under [Rx], [Ry], [Rz]
    at [direction * pi / 2]. *)
Definition quarter (ax : axis) (d : R) (v : vec) : vec :=
  match ax with
  | axis_x => V3 (vx v) (d * vz v) (- d * vy v)
  | axis_y => V3 (- d * vz v) (vy v) (d * vx v)
  | axis_z => V3 (d * vy v) (- d * vx v) (vz v)
  end.

(** The keys of [normal_vectors] and [colours], in the order of the
    literals of [Cube.__init__]. *)
Definition face_labels : list string :=
  ["front"; "back"; "left"; "right"; "top"; "bottom"]%string.

(** The colours [Cube.__init__] assigns. *)
Definition colour_table : dict Colour :=
  [("front", COLOUR_RED); ("back", COLOUR_MAGENTA);
   ("left", COLOUR_YELLOW); ("right", COLOUR_WHITE);
   ("top", COLOUR_GREEN); ("bottom", COLOUR_BLUE)]%string.

(** Layer [idx] along an axis: [rubik_cube[idx]] for x, [rubik_cube[:, idx]]
    for y and [rubik_cube[:, :, idx]] for z. *)
Definition slice_of (ax : axis) (idx : ix) : slice :=
  match ax with
  | axis_x => slice_0 idx
  | axis_y => slice_1 idx
  | axis_z => slice_2 idx
  end.

(** A twist: [rotate_face] on a layer along an axis, turned about that
    axis, the only way [main_event_loop] calls it. *)
Definition twist (ax : axis) (idx : ix) (clockwise : bool) (g : grid) : grid :=
  rotate_face (slice_of ax idx) ax clockwise g.

(** Equality of indices. *)
Definition ix_eqb (a b : ix) : bool :=
  match a, b with
  | i0, i0 | i1, i1 | i2, i2 => true
  | _, _ => false
  end.

(** The cell [i, j, k] lies in layer [idx] of the axis. *)
Definition in_layer (ax : axis) (idx : ix) (i j k : ix) : bool :=
  match ax with
  | axis_x => ix_eqb i idx
  | axis_y => ix_eqb j idx
  | axis_z => ix_eqb k idx
  end.

(** The sign of the geometric turn. *)
Definition direction_of (clockwise : bool) : Z := if clockwise then 1%Z else (-1)%Z.

(** The cell whose cube a twist moves into cell [i, j, k] of its layer. *)
Definition source_cell (ax : axis) (clockwise : bool) (i j k : ix) : ix * ix * ix :=
  match ax, clockwise with
  | axis_x, true => (i, ix_rev k, j)
  | axis_x, false => (i, k, ix_rev j)
  | axis_y, true => (ix_rev k, j, i)
  | axis_y, false => (k, j, ix_rev i)
  | axis_z, true => (j, ix_rev i, k)
  | axis_z, false => (ix_rev j, i, k)
  end.

(** The cube in a cell given as a triple. *)
Definition get3c (g : grid) (c : ix * ix * ix) : Cube.t :=
  match c with (i, j, k) => get3 g i j k end.

(** An index as a real number. *)
Definition coord (i : ix) : R :=
  match i with i0 => 0 | i1 => 1 | i2 => 2 end.

(** The lattice point that belongs to cell [i, j, k]. *)
Definition lattice (i j k : ix) : vec := V3 (coord i - 1) (1 - coord j) (1 - coord k).

Definition lattice_c (c : ix * ix * ix) : vec :=
  match c with (i, j, k) => lattice i j k end.

(** Every cell holds the cube centred at its lattice point. *)
Definition labelled (g : grid) : Prop :=
  forall i j k, Cube.position (get3 g i j k) = lattice i j k.

(** The face opposite to a face. *)
Definition opposite_face : dict string :=
  [("front", "back"); ("back", "front"); ("left", "right");
   ("right", "left"); ("top", "bottom"); ("bottom", "top")]%string.

(** The inner products the six normals of a cube have: 1 of a normal with
    itself, -1 for opposite faces, 0 for every other pair. *)
Definition gram (p q : string) : R :=
  if String.eqb p q then 1
  else match dict_get opposite_face p with
       | Some o => if String.eqb q o then -1 else 0
       | None => 0
       end.

(** The normals of a cube carry the six labels in order and have these
    inner products. *)
Definition frame_ok (c : Cube.t) : Prop :=
  map fst (Cube.normal_vectors c) = face_labels /\
  forall p q n m,
    In (p, n) (Cube.normal_vectors c) -> In (q, m) (Cube.normal_vectors c) ->
    inner n m = gram p q.

(** Following the specification's words: the vectors of a list are unit
    vectors and pairwise orthogonal, each within [eps]. *)
Definition pairwise_orthonormal (eps : R) (ns : list vec) : Prop :=
  (forall a n, nth_error ns a = Some n -> Rabs (inner n n - 1) < eps) /\
  (forall a b n m,
      a <> b -> nth_error ns a = Some n -> nth_error ns b = Some m ->
      Rabs (inner n m) < eps).

(** Componentwise closeness of two vectors. *)
Definition vec_within (eps : R) (u v : vec) : Prop :=
  Rabs (vx u - vx v) < eps /\ Rabs (vy u - vy v) < eps /\ Rabs (vz u - vz v) < eps.

(** Closeness of two cubes: corners, normals (label by label) and centre. *)
Definition cube_within (eps : R) (c c' : Cube.t) : Prop :=
  Forall2 (vec_within eps) (Cube.front c) (Cube.front c') /\
  Forall2 (vec_within eps) (Cube.back c) (Cube.back c') /\
  Forall2 (fun fn fn' => fst fn = fst fn' /\ vec_within eps (snd fn) (snd fn'))
          (Cube.normal_vectors c) (Cube.normal_vectors c') /\
  vec_within eps (Cube.position c) (Cube.position c').

(** The 27 cells. *)
Definition all_cells : list (ix * ix * ix) :=
  flat_map (fun i => flat_map (fun j => map (fun k => (i, j, k)) ix_all) ix_all) ix_all.

Definition in_layer_c (ax : axis) (idx : ix) (c : ix * ix * ix) : bool :=
  match c with (i, j, k) => in_layer ax idx i j k end.

Definition source_cell_c (ax : axis) (cw : bool) (c : ix * ix * ix) : ix * ix * ix :=
  match c with (i, j, k) => source_cell ax cw i j k end.

(** The middle cell of a layer: both indices within the layer are 1. *)
Definition is_centre (ax : axis) (i j k : ix) : bool :=
  match ax with
  | axis_x => ix_eqb j i1 && ix_eqb k i1
  | axis_y => ix_eqb i i1 && ix_eqb k i1
  | axis_z => ix_eqb i i1 && ix_eqb j i1
  end.

(** Following the specification's words: the 3x3 slice turned by 90
    degrees, clockwise (the first row becomes the last column) and counter
    clockwise (the first row becomes the first column, read upwards). *)
Definition clockwise90 {A : Type} (m : arr2 A) : arr2 A :=
  tabulate (fun a => tabulate (fun b => get2 m (ix_rev b) a)).

Definition counter_clockwise90 {A : Type} (m : arr2 A) : arr2 A :=
  tabulate (fun a => tabulate (fun b => get2 m b (ix_rev a))).

(** Following the specification's words (steps 1 to 4 of the twist): the
    sign, the sign of the index permutation, negated for the z axis only,
    the nine cubes turned by [direction * pi / 2] about the axis, and the
    slice rewritten, turned in the direction of the second sign. *)
Definition twist_by_steps (ax : axis) (idx : ix) (clockwise : bool) (g : grid) : grid :=
  let direction : Z := if clockwise then 1%Z else (-1)%Z in
  let index_direction : Z :=
    match ax with
    | axis_z => (- direction)%Z
    | _ => direction
    end in
  let turned :=
    amap (amap (Cube.rotation_update (rotation_about ax (IZR direction * PI / 2))))
         (view (slice_of ax idx) g) in
  assign (slice_of ax idx) g
         (if (index_direction =? 1)%Z then clockwise90 turned
          else counter_clockwise90 turned).

(** Following the specification's words: the turn commands with the axis
    and the layer of the face they name, and whether they turn clockwise. *)
Definition twist_keys : list (Z * (axis * ix * bool)) :=
  [ (KeyboardCommand.rotate_front_ccw, (axis_z, i0, false));
    (KeyboardCommand.rotate_front_cw, (axis_z, i0, true));
    (KeyboardCommand.rotate_middle_ccw, (axis_z, i1, false));
    (KeyboardCommand.rotate_middle_cw, (axis_z, i1, true));
    (KeyboardCommand.rotate_back_ccw, (axis_z, i2, false));
    (KeyboardCommand.rotate_back_cw, (axis_z, i2, true));
    (KeyboardCommand.rotate_top_ccw, (axis_y, i0, false));
    (KeyboardCommand.rotate_top_cw, (axis_y, i0, true));
    (KeyboardCommand.rotate_bottom_ccw, (axis_y, i2, false));
    (KeyboardCommand.rotate_bottom_cw, (axis_y, i2, true));
    (KeyboardCommand.rotate_left_ccw, (axis_x, i0, false));
    (KeyboardCommand.rotate_left_cw, (axis_x, i0, true));
    (KeyboardCommand.rotate_right_ccw, (axis_x, i2, false));
    (KeyboardCommand.rotate_right_cw, (axis_x, i2, true)) ].

(** * Drawing and the rest of the event loop *)

(** ** Code that can raise: [None] stands for the exception *)
Definition and_then {A B : Type} (o : option A) (f : A -> option B) : option B :=
  match o with
  | Some a => f a
  | None => None
  end.

(** ** [Artist.fill_polygon] ([src/cube/artist.py], lines 40-44): the call
    [screen.fill_polygon(polygons, colour)] it makes *)
Record fill_call : Type := FillPolygon {
  fill_polygons : list (list (R * R));
  fill_colour : Colour
}.

Definition fill_polygon (self : Artist.t) (polygons : list (list vec)) (colour : Colour)
  : fill_call :=
  FillPolygon (map (map (Artist.project3d self)) polygons) colour.

(** ** [Cube.draw_block_faces] ([src/cube/cube.py], lines 68-139) *)

(** A list of four corners, each read by index ([IndexError] is [None]). *)
Definition corners4 (a b c d : option vec) : option (list vec) :=
  and_then a (fun a => and_then b (fun b => and_then c (fun c => and_then d (fun d =>
    Some [a; b; c; d])))).

(** One of the six [if] statements: the normal of the face is looked up and
    tested against the camera position; only when the test succeeds are the
    corners and the colour read and the polygon filled. *)
Definition fill_face (self : Cube.t) (artist : Artist.t) (face : string)
  (corners : option (list vec)) : option (list fill_call) :=
  let camera_direction := Artist.camera_position artist in
  and_then (dict_get (Cube.normal_vectors self) face) (fun normal =>
    if Rgt_dec (inner camera_direction normal) 0 then
      and_then corners (fun quad =>
      and_then (dict_get (Cube.colours self) face) (fun colour =>
        Some [fill_polygon artist [quad] colour]))
    else Some []).

(** The corners each face hands to [fill_polygon]. *)
Definition face_corners (self : Cube.t) (face : string) : option (list vec) :=
  let front := Cube.front self in
  let back := Cube.back self in
  if String.eqb face "front" then Some front
  else if String.eqb face "back" then Some (rev back)
  else if String.eqb face "left" then
    corners4 (nth_error front 0) (nth_error back 0) (nth_error back 3) (nth_error front 3)
  else if String.eqb face "right" then
    corners4 (nth_error front 1) (nth_error front 2) (nth_error back 2) (nth_error back 1)
  else if String.eqb face "top" then
    corners4 (nth_error front 0) (nth_error front 1) (nth_error back 1) (nth_error back 0)
  else if String.eqb face "bottom" then
    corners4 (nth_error front 2) (nth_error front 3) (nth_error back 3) (nth_error back 2)
  else None.

Definition draw_block_faces (self : Cube.t) (artist : Artist.t) : option (list fill_call) :=
  let step (face : string) := fill_face self artist face (face_corners self face) in
  and_then (step "front"%string) (fun f1 =>
  and_then (step "back"%string) (fun f2 =>
  and_then (step "left"%string) (fun f3 =>
  and_then (step "right"%string) (fun f4 =>
  and_then (step "top"%string) (fun f5 =>
  and_then (step "bottom"%string) (fun f6 =>
    Some (f1 ++ f2 ++ f3 ++ f4 ++ f5 ++ f6))))))).

(** ** [Cube.draw_cage] ([src/cube/cube.py], lines 58-66) *)

(** [zip(l, [*l[1:], l[0]])]; [l[0]] raises on an empty list. *)
Definition closed_path (l : list vec) : option (list (vec * vec)) :=
  match l with
  | [] => None
  | first :: rest => Some (combine l (rest ++ [first]))
  end.

(** [for pt1, pt2 in pairs: artist.line(pt1, pt2)] *)
Definition draw_lines (artist : Artist.t) (pairs : list (vec * vec)) : list screen_call :=
  flat_map (fun p => Artist.line artist (fst p) (snd p)) pairs.

Definition draw_cage (self : Cube.t) (artist : Artist.t) : option (list screen_call) :=
  if Req_dec_T (vx (Artist.camera_position artist)) 0 then
    and_then (closed_path (Cube.front self)) (fun edges1 =>
    and_then (closed_path (Cube.back self)) (fun edges2 =>
      Some (draw_lines artist edges1 ++ draw_lines artist edges2 ++
            draw_lines artist (combine (Cube.front self) (Cube.back self)))))
  else Some [].

(** ** The drawing pass of [main_event_loop] ([src/cube/__main__.py],
    lines 145-154) *)

(** [m.flatten()] of a 3x3 array and of the assembly, in C order *)
Definition flatten2 {A : Type} (m : arr2 A) : list A :=
  flat_map (fun a => map (fun b => get2 m a b) ix_all) ix_all.

Definition flatten3 (g : grid) : list Cube.t :=
  flat_map (fun i => flat_map (fun j => map (fun k => get3 g i j k) ix_all) ix_all) ix_all.

(** [np.linalg.norm] *)
Definition norm (v : vec) : R := sqrt (inner v v).

Definition cube_camera_distance (artist : Artist.t) (cube : Cube.t) : R :=
  norm (vsub (Artist.camera_position artist) (Cube.position cube)).

(** [sorted(l, key=key, reverse=True)] *)
Definition sorted_by_reverse {A : Type} (key : A -> R) (l : list A) : list A :=
  map fst (sorted_reverse (map (fun x => (x, key x)) l)).

(** The order in which the cubes are drawn. *)
Definition drawing_order (artist : Artist.t) (g : grid) : list Cube.t :=
  sorted_by_reverse (cube_camera_distance artist) (flatten3 g).

(** What one pass hands to the screen. *)
Inductive drawn : Type :=
| Filled (f : fill_call)
| Stroked (s : screen_call).

Fixpoint draw_cubes (artist : Artist.t) (cubes : list Cube.t) : option (list drawn) :=
  match cubes with
  | [] => Some []
  | cube :: rest =>
      and_then (draw_block_faces cube artist) (fun faces =>
      and_then (draw_cage cube artist) (fun cage =>
      and_then (draw_cubes artist rest) (fun tail =>
        Some (map Filled faces ++ map Stroked cage ++ tail))))
  end.

Definition draw_frame (artist : Artist.t) (g : grid) : option (list drawn) :=
  draw_cubes artist (drawing_order artist g).

(** ** The colour panels of [main_event_loop] (lines 156-234) *)

(** [rubik_cube[::-1, 0].T.flatten()[::-1]] *)
Definition top_layer (g : grid) : list Cube.t :=
  rev (flatten2 (transpose2 (view (slice_1 i0) (reversed g)))).

(** [rubik_cube[:, :, 0].T.flatten()] *)
Definition front_layer (g : grid) : list Cube.t :=
  flatten2 (transpose2 (view (slice_2 i0) g)).

(** [rubik_cube[:, 2].T.flatten()] *)
Definition bottom_layer (g : grid) : list Cube.t :=
  flatten2 (transpose2 (view (slice_1 i2) g)).

(** [rubik_cube[::-1, :, 2].T.flatten()[::-1]] *)
Definition rear_layer (g : grid) : list Cube.t :=
  rev (flatten2 (transpose2 (view (slice_2 i2) (reversed g)))).

(** [rubik_cube[0, ::-1].flatten()[::-1]] *)
Definition left_layer (g : grid) : list Cube.t :=
  rev (flatten2 (reversed (get g i0))).

(** [rubik_cube[2].flatten()] *)
Definition right_layer (g : grid) : list Cube.t :=
  flatten2 (get g i2).

(** The six panels: letter, layer, direction asked for, and the offsets of
    the panel's corner from the right and the bottom edge of the screen. *)
Definition panels (g : grid) : list (string * list Cube.t * vec * (Z * Z)) :=
  [ ("T", top_layer g, V3 0 1 0, (6, 12));
    ("F", front_layer g, V3 0 0 1, (6, 9));
    ("D", bottom_layer g, V3 0 (-1) 0, (6, 6));
    ("B", rear_layer g, V3 0 0 (-1), (6, 3));
    ("L", left_layer g, V3 (-1) 0 0, (9, 9));
    ("R", right_layer g, V3 1 0 0, (3, 9)) ]%string%Z.

(** [screen.print_at(text, x, y, colour)] *)
Record print_call : Type := PrintAt {
  print_text : string;
  print_x : Z;
  print_y : Z;
  print_colour : Colour
}.

(** [[f(x) for x in l]] where [f] can raise *)
Fixpoint all_of {A B : Type} (f : A -> option B) (l : list A) : option (list B) :=
  match l with
  | [] => Some []
  | x :: l' => and_then (f x) (fun y => and_then (all_of f l') (fun ys => Some (y :: ys)))
  end.

(** [enumerate(l)] *)
Definition enumerate {A : Type} (l : list A) : list (nat * A) :=
  combine (seq 0 (List.length l)) l.

(** One panel: the colours are computed first, then printed at
    [(width - dx + i % 3, height - dy + i // 3)]. *)
Definition draw_panel (screen : Screen) (p : string * list Cube.t * vec * (Z * Z))
  : option (list print_call) :=
  match p with
  | (letter, layer, direction, (dx, dy)) =>
      and_then (all_of (fun cube => Cube.get_face_colour cube direction) layer)
        (fun colours =>
           Some (map (fun ic =>
                        PrintAt letter
                                (width screen - dx + Z.of_nat (fst ic) mod 3)
                                (height screen - dy + Z.of_nat (fst ic) / 3)
                                (snd ic))
                     (enumerate colours)))
  end.

Fixpoint draw_panels (screen : Screen) (ps : list (string * list Cube.t * vec * (Z * Z)))
  : option (list print_call) :=
  match ps with
  | [] => Some []
  | p :: ps' =>
      and_then (draw_panel screen p) (fun calls =>
      and_then (draw_panels screen ps') (fun tail => Some (calls ++ tail)))
  end.

(** ** Sequences of mouse events *)
Fixpoint run_mouse (screen : Screen) (events : list (Z * Z * Z)) (st : mouse_state)
  : mouse_state :=
  match events with
  | [] => st
  | (x, y, buttons) :: events' => run_mouse screen events' (on_mouse screen x y buttons st)
  end.

(** * Notions used in the further statements *)

(** The identity matrix. *)
Definition identity : mat := M3 (V3 1 0 0) (V3 0 1 0) (V3 0 0 1).

(** The cross product of two vectors. *)
Definition cross (u v : vec) : vec :=
  V3 (vy u * vz v - vz u * vy v)
     (vz u * vx v - vx u * vz v)
     (vx u * vy v - vy u * vx v).

(** What the docstring of [project3d] asks of a camera: right, up and
    forward are orthogonal unit vectors, forward is the negative cross
    product of right and up; and the camera sits [DISTANCE_TO_CAMERA] behind
    the origin, looking at it. *)
Definition camera_ok (a : Artist.t) : Prop :=
  inner (Artist.camera_x a) (Artist.camera_x a) = 1 /\
  inner (Artist.camera_y a) (Artist.camera_y a) = 1 /\
  inner (Artist.camera_z a) (Artist.camera_z a) = 1 /\
  inner (Artist.camera_x a) (Artist.camera_y a) = 0 /\
  inner (Artist.camera_x a) (Artist.camera_z a) = 0 /\
  inner (Artist.camera_y a) (Artist.camera_z a) = 0 /\
  Artist.camera_z a = vneg (cross (Artist.camera_x a) (Artist.camera_y a)) /\
  Artist.camera_position a = vscale (- DISTANCE_TO_CAMERA) (Artist.camera_z a).

(** The codes of all seventeen commands. *)
Definition command_codes : list Z :=
  map fst twist_keys
  ++ [KeyboardCommand.reset_view; KeyboardCommand.help; KeyboardCommand.quit].

(** Mouse moves without a button, as events. *)
Definition moves (positions : list (Z * Z)) : list (Z * Z * Z) :=
  map (fun p => (fst p, snd p, 0%Z)) positions.

(** The eight corners of a cube. *)
Definition corners (c : Cube.t) : list vec := Cube.front c ++ Cube.back c.

(** The artist of the first version with the fields of a package artist. *)
Definition legacy_of (a : Artist.t) : Legacy.Artist :=
  Legacy.mkArtist (Artist.h a) (Artist.w a) (Artist.cx a) (Artist.cy a)
                  (Artist.camera_position a) (Artist.camera_x a)
                  (Artist.camera_y a) (Artist.camera_z a).

(** The denominator of the projection. *)
Definition denominator (a : Artist.t) (point : vec) : R :=
  inner (Artist.camera_z a) (vsub point (Artist.camera_position a)).

(** Every corner of the cube is within the ball that holds the assembly:
    squared distance from the origin at most 3 * 1.5^2. *)
Definition corners_bounded (c : Cube.t) : Prop :=
  forall p, In p (corners c) -> inner p p <= 27 / 4.

(** Descending order of keyed entries, and of cubes by camera distance. *)
Definition key_desc {A : Type} (x y : A * R) : Prop := snd y <= snd x.

Definition farther_first (artist : Artist.t) (c c' : Cube.t) : Prop :=
  cube_camera_distance artist c' <= cube_camera_distance artist c.

(** ** Invariants of a cube under rotation *)

(** Four corners in front and four at the back. *)
Definition four_corners (c : Cube.t) : Prop :=
  List.length (Cube.front c) = 4%nat /\ List.length (Cube.back c) = 4%nat.

(** The six normals under their labels, opposite faces with opposite
    normals. *)
Definition normal_pairs (c : Cube.t) : Prop :=
  exists f l t,
    Cube.normal_vectors c
    = [("front", f); ("back", vneg f); ("left", l); ("right", vneg l);
       ("top", t); ("bottom", vneg t)]%string.

(** The six directions along the axes. *)
Definition axis_vectors : list vec :=
  [V3 1 0 0; V3 (-1) 0 0; V3 0 1 0; V3 0 (-1) 0; V3 0 0 1; V3 0 0 (-1)].

(** For every direction along an axis some face has exactly that normal. *)
Definition covers (c : Cube.t) : Prop :=
  forall d, In d axis_vectors -> exists face, In (face, d) (Cube.normal_vectors c).

(** The corners [draw_block_faces] fills under a label lie in the plane half
    a unit from the centre along the normal stored under that label. *)
Definition on_face_planes (c : Cube.t) : Prop :=
  forall face quad n p,
    face_corners c face = Some quad ->
    dict_get (Cube.normal_vectors c) face = Some n ->
    In p quad ->
    inner (vsub p (Cube.position c)) n = 1 / 2.

(** Squared distance of two points. *)
Definition dist2 (p q : vec) : R := inner (vsub p q) (vsub p q).

(** The corners of [c] are as far from each other as those of [ref], and as
    far from the centre. *)
Definition same_shape (c ref : Cube.t) : Prop :=
  List.length (corners c) = List.length (corners ref) /\
  (forall m n p q p0 q0,
      nth_error (corners c) m = Some p -> nth_error (corners c) n = Some q ->
      nth_error (corners ref) m = Some p0 -> nth_error (corners ref) n = Some q0 ->
      dist2 p q = dist2 p0 q0) /\
  (forall m p p0,
      nth_error (corners c) m = Some p -> nth_error (corners ref) m = Some p0 ->
      dist2 p (Cube.position c) = dist2 p0 (Cube.position ref)).

(** What one [if] of [draw_block_faces] contributes. *)
Definition visible_fill (a : Artist.t) (normal : vec) (quad : list vec) (colour : Colour)
  : list fill_call :=
  if Rgt_dec (inner (Artist.camera_position a) normal) 0
  then [fill_polygon a [quad] colour]
  else [].

(** The colours of opposite faces. *)
Definition opposite_colour (c : Colour) : Colour :=
  match c with
  | COLOUR_RED => COLOUR_MAGENTA
  | COLOUR_MAGENTA => COLOUR_RED
  | COLOUR_YELLOW => COLOUR_WHITE
  | COLOUR_WHITE => COLOUR_YELLOW
  | COLOUR_GREEN => COLOUR_BLUE
  | COLOUR_BLUE => COLOUR_GREEN
  | other => other
  end.

(** The twelve edges [draw_cage] draws: around the front, around the back,
    and from each front corner to the back corner behind it. *)
Definition cage_edges (c : Cube.t) : option (list (vec * vec)) :=
  and_then (closed_path (Cube.front c)) (fun edges1 =>
  and_then (closed_path (Cube.back c)) (fun edges2 =>
    Some (edges1 ++ edges2 ++ combine (Cube.front c) (Cube.back c)))).

(** The cube [Cube()] of the default argument, centred at the origin. *)
Definition unit_cube : Cube.t := Cube.init (V3 0 0 0).

(** The polygons and the line calls of a pass. *)
Definition filled_of (calls : list drawn) : list fill_call :=
  flat_map (fun d => match d with Filled f => [f] | Stroked _ => [] end) calls.

Definition stroked_of (calls : list drawn) : list screen_call :=
  flat_map (fun d => match d with Filled _ => [] | Stroked s => [s] end) calls.

(** ** Stickers *)

(** The six directions along the axes, as an enumeration. *)
Inductive dir : Type := Xp | Xm | Yp | Ym | Zp | Zm.

Definition dir_vec (d : dir) : vec :=
  match d with
  | Xp => V3 1 0 0
  | Xm => V3 (-1) 0 0
  | Yp => V3 0 1 0
  | Ym => V3 0 (-1) 0
  | Zp => V3 0 0 1
  | Zm => V3 0 0 (-1)
  end.

(** The direction that the rotation of a twist turns into [d]. *)
Definition turn_back (ax : axis) (cw : bool) (d : dir) : dir :=
  match ax, cw, d with
  | axis_x, true, Yp => Zp | axis_x, true, Zp => Ym
  | axis_x, true, Ym => Zm | axis_x, true, Zm => Yp
  | axis_x, false, Yp => Zm | axis_x, false, Zp => Yp
  | axis_x, false, Ym => Zp | axis_x, false, Zm => Ym
  | axis_y, true, Xp => Zm | axis_y, true, Zp => Xp
  | axis_y, true, Xm => Zp | axis_y, true, Zm => Xm
  | axis_y, false, Xp => Zp | axis_y, false, Zp => Xm
  | axis_y, false, Xm => Zm | axis_y, false, Zm => Xp
  | axis_z, true, Xp => Yp | axis_z, true, Yp => Xm
  | axis_z, true, Xm => Ym | axis_z, true, Ym => Xp
  | axis_z, false, Xp => Ym | axis_z, false, Yp => Xp
  | axis_z, false, Xm => Yp | axis_z, false, Ym => Xm
  | _, _, d => d
  end.

(** Nine cells in the order of a panel, row by row. *)
Definition panel_cells (f : ix -> ix -> ix * ix * ix) : list (ix * ix * ix) :=
  flat_map (fun r => map (fun c => f r c) ix_all) ix_all.

(** The cell shown in row [r], column [c] of each panel. *)
Definition top_cell (r c : ix) : ix * ix * ix := (c, i0, ix_rev r).
Definition front_cell (r c : ix) : ix * ix * ix := (c, r, i0).
Definition bottom_cell (r c : ix) : ix * ix * ix := (c, i2, r).
Definition rear_cell (r c : ix) : ix * ix * ix := (c, ix_rev r, i2).
Definition left_cell (r c : ix) : ix * ix * ix := (i0, r, ix_rev c).
Definition right_cell (r c : ix) : ix * ix * ix := (i2, r, c).

(** A sticker place: a cell and the direction it is looked at from.  The 54
    places the panels show, in the order they are printed. *)
Definition sticker_slots : list (ix * ix * ix * dir) :=
  map (fun s => (s, Yp)) (panel_cells top_cell)
  ++ map (fun s => (s, Zp)) (panel_cells front_cell)
  ++ map (fun s => (s, Ym)) (panel_cells bottom_cell)
  ++ map (fun s => (s, Zm)) (panel_cells rear_cell)
  ++ map (fun s => (s, Xm)) (panel_cells left_cell)
  ++ map (fun s => (s, Xp)) (panel_cells right_cell).

(** The colour a sticker place shows. *)
Definition shown (g : grid) (s : ix * ix * ix * dir) : option Colour :=
  Cube.get_face_colour (get3c g (fst s)) (dir_vec (snd s)).

(** The place whose sticker a twist moves to place [s]. *)
Definition move_slot (ax : axis) (idx : ix) (cw : bool) (s : ix * ix * ix * dir)
  : ix * ix * ix * dir :=
  if in_layer_c ax idx (fst s)
  then (source_cell_c ax cw (fst s), turn_back ax cw (snd s))
  else s.

(** The stickers of the assembly at start-up, in the order of the panels. *)
Definition solved_colours : list Colour :=
  repeat COLOUR_GREEN 9 ++ repeat COLOUR_RED 9 ++ repeat COLOUR_BLUE 9
  ++ repeat COLOUR_MAGENTA 9 ++ repeat COLOUR_YELLOW 9 ++ repeat COLOUR_WHITE 9.

(** The calls of one panel with its colours known. *)
Definition panel_calls (screen : Screen) (letter : string) (dx dy : Z)
  (colours : list Colour) : list print_call :=
  map (fun ic =>
         PrintAt letter
                 (width screen - dx + Z.of_nat (fst ic) mod 3)
                 (height screen - dy + Z.of_nat (fst ic) / 3)
                 (snd ic))
      (enumerate colours).

(** Where a call prints. *)
Definition print_pos (c : print_call) : Z * Z := (print_x c, print_y c).

(** Decidable equality of sticker places and of colours. *)
Definition slot_eq_dec (x y : ix * ix * ix * dir) : {x = y} + {x <> y}.
Proof. repeat decide equality. Defined.

Definition colour_eq_dec (x y : Colour) : {x = y} + {x <> y}.
Proof. decide equality. Defined.

(** The colour a new cube shows in a direction. *)
Definition colour_of_dir (d : dir) : Colour :=
  match d with
  | Xp => COLOUR_WHITE
  | Xm => COLOUR_YELLOW
  | Yp => COLOUR_GREEN
  | Ym => COLOUR_BLUE
  | Zp => COLOUR_RED
  | Zm => COLOUR_MAGENTA
  end.

(** * The cubes and the loop of the first version ([src/cube.py], lines
    127-282) *)
Module LegacyCube.

(** [BaseCube], [TranslatedCube] and [GenericCube] share one state: the
    corners in front and at the back. *)
Record GenericCube : Type := mkCube {
  front : list vec;
  back : list vec
}.

(** [BaseCube.__init__] *)
Definition BaseCube : GenericCube :=
  let front := [V3 (-1) 1 1; V3 1 1 1; V3 1 (-1) 1; V3 (-1) (-1) 1] in
  let back := [V3 (-1) 1 (-1); V3 1 1 (-1); V3 1 (-1) (-1); V3 (-1) (-1) (-1)] in
  mkCube (map (fun pt => vdiv pt 2) front) (map (fun pt => vdiv pt 2) back).

(** [TranslatedCube.__init__], which is also [GenericCube(position)] *)
Definition TranslatedCube (position : vec) : GenericCube :=
  mkCube (map (fun pt => vadd pt position) (front BaseCube))
         (map (fun pt => vadd pt position) (back BaseCube)).

(** [GenericCube.__rotation_update__] *)
Definition rotation_update (M : mat) (self : GenericCube) : GenericCube :=
  mkCube (map (mdot M) (front self)) (map (mdot M) (back self)).

Definition rotate_x (self : GenericCube) (theta : R) : GenericCube :=
  rotation_update (rotation.Rx theta) self.
Definition rotate_y (self : GenericCube) (theta : R) : GenericCube :=
  rotation_update (rotation.Ry theta) self.
Definition rotate_z (self : GenericCube) (theta : R) : GenericCube :=
  rotation_update (rotation.Rz theta) self.

(** [for pt1, pt2 in pairs: artist.line(pt1, pt2)]; the first line that
    fails ends the loop with its exception. *)
Fixpoint draw_lines (artist : Legacy.Artist) (pairs : list (vec * vec))
  : option (list screen_call) :=
  match pairs with
  | [] => Some []
  | (pt1, pt2) :: pairs' =>
      and_then (Legacy.line artist pt1 pt2) (fun calls =>
      and_then (draw_lines artist pairs') (fun tail => Some (calls ++ tail)))
  end.

(** [BaseCube.draw_cage] *)
Definition draw_cage (self : GenericCube) (artist : Legacy.Artist)
  : option (list screen_call) :=
  and_then (closed_path (front self)) (fun edges1 =>
  and_then (draw_lines artist edges1) (fun calls1 =>
  and_then (closed_path (back self)) (fun edges2 =>
  and_then (draw_lines artist edges2) (fun calls2 =>
  and_then (draw_lines artist (combine (front self) (back self))) (fun calls3 =>
    Some (calls1 ++ calls2 ++ calls3)))))).

(** The assembly of the first version: every lattice point but the
    origin ([if x or y or z]). *)
Definition rubik_cube : list GenericCube :=
  flat_map (fun x =>
    flat_map (fun y =>
      flat_map (fun z =>
        if negb (x =? 0)%Z || negb (y =? 0)%Z || negb (z =? 0)%Z
        then [TranslatedCube (V3 (IZR x) (IZR y) (IZR z))]
        else [])
      [-1; 0; 1]%Z)
    [-1; 0; 1]%Z)
  [-1; 0; 1]%Z.

Definition distance_to_camera : R := 7.

(** The artist the loop creates: the default frame, 7 in front. *)
Definition initial_artist (screen : Screen) : Legacy.Artist :=
  Legacy.mkArtist (height screen) (width screen)
                  (IZR (width screen) / 2) (IZR (height screen) / 2)
                  (V3 0 0 distance_to_camera) (V3 1 0 0) (V3 0 1 0) (V3 0 0 (-1)).

(** The camera the loop derives from the accumulated drag (lines 249-262):
    both components are divided by [max(screen.width, screen.height)]. *)
Definition update_from_drag (screen : Screen) (camera_2d : Z * Z) (artist : Legacy.Artist)
  : Legacy.Artist :=
  let extent := IZR (Z.max (width screen) (height screen)) in
  let alpha := IZR (fst camera_2d) / extent * PI in
  let beta := IZR (snd camera_2d) / extent * PI in
  let M := matmul (rotation.Ry alpha) (rotation.Rx beta) in
  let camera_x := mdot M (V3 1 0 0) in
  let camera_y := mdot M (V3 0 1 0) in
  let camera_z := vneg (mdot M (V3 0 0 1)) in
  Legacy.mkArtist (Legacy.h artist) (Legacy.w artist) (Legacy.cx artist) (Legacy.cy artist)
                  (vscale distance_to_camera (vneg camera_z))
                  camera_x camera_y camera_z.

(** The drawing pass: [for cube in rubik_cube: cube.draw_cage(artist)] *)
Fixpoint draw_cubes (artist : Legacy.Artist) (cubes : list GenericCube)
  : option (list screen_call) :=
  match cubes with
  | [] => Some []
  | cube :: rest =>
      and_then (draw_cage cube artist) (fun calls =>
      and_then (draw_cubes artist rest) (fun tail => Some (calls ++ tail)))
  end.

End LegacyCube.

(** A camera of the first version that looks at the origin from the
    distance of its loop. *)
Definition legacy_camera_ok (a : Legacy.Artist) : Prop :=
  inner (Legacy.camera_z a) (Legacy.camera_z a) = 1 /\
  Legacy.camera_position a
  = vscale (- LegacyCube.distance_to_camera) (Legacy.camera_z a).

(** * Properties *)

(** ** Vectors and quarter turns *)

Lemma vec_eq (a b c a' b' c' : R) :
  a = a' -> b = b' -> c = c' -> V3 a b c = V3 a' b' c'.
Proof. intros; subst; reflexivity. Qed.

Ltac vec_simpl :=
  unfold mdot, matmul, inner, vadd, vsub, vneg, vscale, vdiv, col0, col1, col2; simpl.

(** The angle of a twist, [direction * np.pi / 2], for the two values of
    [direction]. *)
Lemma cos_quarter (d : Z) : d = 1%Z \/ d = (-1)%Z -> cos (IZR d * PI / 2) = 0.
Proof.
  intros [-> | ->].
  - replace (1 * PI / 2) with (PI / 2) by lra. apply cos_PI2.
  - replace (-1 * PI / 2) with (- (PI / 2)) by lra. rewrite cos_neg. apply cos_PI2.
Qed.

Lemma sin_quarter (d : Z) : d = 1%Z \/ d = (-1)%Z -> sin (IZR d * PI / 2) = IZR d.
Proof.
  intros [-> | ->].
  - replace (1 * PI / 2) with (PI / 2) by lra. apply sin_PI2.
  - replace (-1 * PI / 2) with (- (PI / 2)) by lra. rewrite sin_neg, sin_PI2. reflexivity.
Qed.

Lemma mdot_quarter (ax : axis) (d : Z) (v : vec) :
  d = 1%Z \/ d = (-1)%Z ->
  mdot (rotation_about ax (IZR d * PI / 2)) v = quarter ax (IZR d) v.
Proof.
  intros Hd. destruct ax; vec_simpl;
    rewrite (cos_quarter d Hd), (sin_quarter d Hd); apply vec_eq; lra.
Qed.

(** Every matrix of the module preserves inner products. *)
Lemma rotation_inner (ax : axis) (theta : R) (u v : vec) :
  inner (mdot (rotation_about ax theta) u) (mdot (rotation_about ax theta) v) = inner u v.
Proof.
  pose proof (sin2_cos2 theta) as H. unfold Rsqr in H.
  destruct u as [a b c], v as [a' b' c'].
  destruct ax; vec_simpl.
  - replace (a * a' + b * b' + c * c')
      with (a * a' + (sin theta * sin theta + cos theta * cos theta) * (b * b' + c * c'))
      by (rewrite H; ring).
    ring.
  - replace (a * a' + b * b' + c * c')
      with (b * b' + (sin theta * sin theta + cos theta * cos theta) * (a * a' + c * c'))
      by (rewrite H; ring).
    ring.
  - replace (a * a' + b * b' + c * c')
      with (c * c' + (sin theta * sin theta + cos theta * cos theta) * (a * a' + b * b'))
      by (rewrite H; ring).
    ring.
Qed.

(** ** The face table *)

Lemma dict_map_keys {A B : Type} (f : A -> B) (d : dict A) :
  map fst (dict_map f d) = map fst d.
Proof. unfold dict_map. rewrite map_map. reflexivity. Qed.

Lemma dict_map_In {A B : Type} (f : A -> B) (d : dict A) (k : string) (b : B) :
  In (k, b) (dict_map f d) -> exists a, b = f a /\ In (k, a) d.
Proof.
  unfold dict_map. intros H. apply in_map_iff in H.
  destruct H as [[k' a] [E H]]. simpl in E. inversion E; subst.
  exists a. split; [reflexivity | assumption].
Qed.

(** ** Cells of the assembly *)

Lemma grid_ext (g g' : grid) :
  (forall i j k, get3 g i j k = get3 g' i j k) -> g = g'.
Proof.
  intros H.
  destruct g as [[[? ? ?] [? ? ?] [? ? ?]] [[? ? ?] [? ? ?] [? ? ?]] [[? ? ?] [? ? ?] [? ? ?]]].
  destruct g' as [[[? ? ?] [? ? ?] [? ? ?]] [[? ? ?] [? ? ?] [? ? ?]] [[? ? ?] [? ? ?] [? ? ?]]].
  pose proof (H i0 i0 i0). pose proof (H i0 i0 i1). pose proof (H i0 i0 i2).
  pose proof (H i0 i1 i0). pose proof (H i0 i1 i1). pose proof (H i0 i1 i2).
  pose proof (H i0 i2 i0). pose proof (H i0 i2 i1). pose proof (H i0 i2 i2).
  pose proof (H i1 i0 i0). pose proof (H i1 i0 i1). pose proof (H i1 i0 i2).
  pose proof (H i1 i1 i0). pose proof (H i1 i1 i1). pose proof (H i1 i1 i2).
  pose proof (H i1 i2 i0). pose proof (H i1 i2 i1). pose proof (H i1 i2 i2).
  pose proof (H i2 i0 i0). pose proof (H i2 i0 i1). pose proof (H i2 i0 i2).
  pose proof (H i2 i1 i0). pose proof (H i2 i1 i1). pose proof (H i2 i1 i2).
  pose proof (H i2 i2 i0). pose proof (H i2 i2 i1). pose proof (H i2 i2 i2).
  unfold get3 in *. simpl in *. congruence.
Qed.

Lemma direction_of_cases (cw : bool) : direction_of cw = 1%Z \/ direction_of cw = (-1)%Z.
Proof. destruct cw; [left | right]; reflexivity. Qed.

Lemma rot90_1 {A : Type} (m : arr2 A) : rot90 m 1 = transpose2 (flip m 1).
Proof. reflexivity. Qed.

Lemma rot90_m1 {A : Type} (m : arr2 A) : rot90 m (-1) = flip (transpose2 m) 1.
Proof. reflexivity. Qed.

(** Cell by cell, what a twist leaves in the assembly. *)
Lemma twist_cell (ax : axis) (idx : ix) (cw : bool) (g : grid) (i j k : ix) :
  get3 (twist ax idx cw g) i j k =
  if in_layer ax idx i j k
  then Cube.rotate ax (get3c g (source_cell ax cw i j k)) (IZR (direction_of cw) * PI / 2)
  else get3 g i j k.
Proof.
  unfold twist, rotate_face.
  destruct ax, cw; simpl Z.mul; simpl Z.opp; rewrite ?rot90_1, ?rot90_m1;
    destruct g as [[[? ? ?] [? ? ?] [? ? ?]] [[? ? ?] [? ? ?] [? ? ?]] [[? ? ?] [? ? ?] [? ? ?]]];
    destruct idx, i, j, k; reflexivity.
Qed.

(** ** C2: the rotation constructors *)

(** C2 (as amended).  For every axis and every real angle [theta], the
    constructor returns the transpose of the standard right-handed rotation
    matrix about that axis, which is the right-handed rotation by [- theta]:
    [Rx theta] maps (0,1,0) to (0, cos theta, - sin theta), [Ry theta] maps
    (0,0,1) to (- sin theta, 0, cos theta) and [Rz theta] maps (1,0,0) to
    (cos theta, - sin theta, 0). *)
Theorem rotation_is_transposed_right_handed (ax : axis) (theta : R) :
  rotation_about ax theta = transpose (right_handed.about ax theta) /\
  rotation_about ax theta = right_handed.about ax (- theta) /\
  mdot (rotation.Rx theta) (V3 0 1 0) = V3 0 (cos theta) (- sin theta) /\
  mdot (rotation.Ry theta) (V3 0 0 1) = V3 (- sin theta) 0 (cos theta) /\
  mdot (rotation.Rz theta) (V3 1 0 0) = V3 (cos theta) (- sin theta) 0.
Proof.
  repeat split.
  - destruct ax; reflexivity.
  - destruct ax; simpl;
      unfold rotation.Rx, rotation.Ry, rotation.Rz,
             right_handed.Rx, right_handed.Ry, right_handed.Rz;
      rewrite cos_neg, sin_neg, ?Ropp_involutive; reflexivity.
  - vec_simpl. apply vec_eq; ring.
  - vec_simpl. apply vec_eq; ring.
  - vec_simpl. apply vec_eq; ring.
Qed.

(** C2 fails as stated: at [theta = PI / 2] the matrix [Rx theta] is not the
    right-handed one, and it sends (0,1,0) to (0,0,-1), not to
    (0, cos theta, sin theta) = (0,0,1). *)
Lemma rotation_not_right_handed :
  rotation_about axis_x (PI / 2) <> right_handed.about axis_x (PI / 2) /\
  mdot (rotation.Rx (PI / 2)) (V3 0 1 0) = V3 0 0 (-1) /\
  mdot (rotation.Rx (PI / 2)) (V3 0 1 0) <> V3 0 (cos (PI / 2)) (sin (PI / 2)).
Proof.
  repeat split.
  - simpl. unfold rotation.Rx, right_handed.Rx. rewrite cos_PI2, sin_PI2.
    intros H. inversion H. lra.
  - vec_simpl. rewrite cos_PI2, sin_PI2. apply vec_eq; lra.
  - vec_simpl. rewrite cos_PI2, sin_PI2. intros H. inversion H. lra.
Qed.

(** ** Invariants of the assembly under key events *)

Lemma rotate_eq (ax : axis) (c : Cube.t) (theta : R) :
  Cube.rotate ax c theta = Cube.rotation_update (rotation_about ax theta) c.
Proof. destruct ax; reflexivity. Qed.

Ltac is_twist ax idx :=
  first [ solve [exists ax, idx, true; reflexivity]
        | solve [exists ax, idx, false; reflexivity] ].

Lemma on_key_cases (key : Z) (g : grid) :
  on_key key g = g \/ exists ax idx cw, on_key key g = twist ax idx cw g.
Proof.
  unfold on_key. cbv zeta beta.
  repeat match goal with
         | |- context [(key =? ?c)%Z] =>
             destruct (key =? c)%Z;
             [ right;
               first [ is_twist axis_x i0 | is_twist axis_x i2
                     | is_twist axis_y i0 | is_twist axis_y i2
                     | is_twist axis_z i0 | is_twist axis_z i1 | is_twist axis_z i2 ]
             | ]
         end.
  left; reflexivity.
Qed.

(** A property of assemblies that every twist preserves holds after every
    sequence of key events. *)
Lemma run_keys_invariant (I : grid -> Prop) :
  (forall ax idx cw g, I g -> I (twist ax idx cw g)) ->
  forall keys g, I g -> I (run_keys keys g).
Proof.
  intros Htwist keys. induction keys as [| key keys IH]; intros g Hg; simpl.
  - assumption.
  - destruct (key =? KeyboardCommand.quit)%Z; [assumption |].
    apply IH.
    destruct (on_key_cases key g) as [-> | (ax & idx & cw & ->)]; auto.
Qed.

(** A property of single cubes that every rotation about an axis preserves
    holds, cell by cell, after every twist. *)
Lemma twist_cells (P : Cube.t -> Prop) :
  (forall ax c theta, P c -> P (Cube.rotate ax c theta)) ->
  forall ax idx cw g,
    (forall i j k, P (get3 g i j k)) ->
    forall i j k, P (get3 (twist ax idx cw g) i j k).
Proof.
  intros Hrot ax idx cw g Hg i j k. rewrite twist_cell.
  destruct (in_layer ax idx i j k); [| apply Hg].
  apply Hrot. destruct (source_cell ax cw i j k) as [[a b] c]. apply Hg.
Qed.

Lemma rubik_cube_cell (i j k : ix) : get3 rubik_cube i j k = Cube.init (lattice i j k).
Proof.
  destruct i, j, k; unfold rubik_cube, reshape333, get3, lattice; simpl;
    f_equal; apply vec_eq; lra.
Qed.

Lemma quarter_lattice (ax : axis) (cw : bool) (i j k : ix) :
  quarter ax (IZR (direction_of cw)) (lattice_c (source_cell ax cw i j k)) = lattice i j k.
Proof.
  destruct ax, cw, i, j, k; unfold quarter, lattice_c, lattice; simpl;
    apply vec_eq; lra.
Qed.

Lemma labelled_start : labelled rubik_cube.
Proof. intros i j k. rewrite rubik_cube_cell. reflexivity. Qed.

Lemma labelled_twist (ax : axis) (idx : ix) (cw : bool) (g : grid) :
  labelled g -> labelled (twist ax idx cw g).
Proof.
  intros Hg i j k. rewrite twist_cell.
  destruct (in_layer ax idx i j k); [| apply Hg].
  rewrite rotate_eq. simpl.
  rewrite mdot_quarter by apply direction_of_cases.
  rewrite <- quarter_lattice with (ax := ax) (cw := cw). f_equal.
  destruct (source_cell ax cw i j k) as [[a b] c]. apply Hg.
Qed.

Lemma labelled_run (keys : list Z) : labelled (run_keys keys rubik_cube).
Proof.
  apply run_keys_invariant; [apply labelled_twist | apply labelled_start].
Qed.

Lemma frame_ok_init (position : vec) : frame_ok (Cube.init position).
Proof.
  split; [reflexivity |].
  intros p q n m Hp Hq. simpl in Hp, Hq.
  repeat match goal with
         | H : _ \/ _ |- _ => destruct H as [H | H]
         | H : False |- _ => destruct H
         | H : (_, _) = (_, _) |- _ => inversion H; subst; clear H
         end;
    unfold gram, inner; simpl; lra.
Qed.

Lemma frame_ok_rotate (ax : axis) (c : Cube.t) (theta : R) :
  frame_ok c -> frame_ok (Cube.rotate ax c theta).
Proof.
  intros [Hk Hg]. rewrite rotate_eq. split; simpl.
  - rewrite dict_map_keys. assumption.
  - intros p q n m Hp Hq.
    apply dict_map_In in Hp. destruct Hp as [n0 [-> Hp]].
    apply dict_map_In in Hq. destruct Hq as [m0 [-> Hq]].
    rewrite rotation_inner. apply Hg; assumption.
Qed.

Lemma frame_ok_run (keys : list Z) (i j k : ix) :
  frame_ok (get3 (run_keys keys rubik_cube) i j k).
Proof.
  revert i j k.
  apply (run_keys_invariant (fun g => forall i j k, frame_ok (get3 g i j k))).
  - intros ax idx cw g Hg. apply twist_cells; [apply frame_ok_rotate | assumption].
  - intros i j k. rewrite rubik_cube_cell. apply frame_ok_init.
Qed.

(** ** C9: the colours of a cube *)

Lemma colours_of_assembly (keys : list Z) (i j k : ix) :
  Cube.colours (get3 (run_keys keys rubik_cube) i j k) = colour_table.
Proof.
  revert i j k.
  apply (run_keys_invariant
           (fun g => forall i j k, Cube.colours (get3 g i j k) = colour_table)).
  - intros ax idx cw g Hg.
    apply (twist_cells (fun c => Cube.colours c = colour_table)); [| assumption].
    intros a c theta Hc. rewrite rotate_eq. assumption.
  - intros i j k. rewrite rubik_cube_cell. reflexivity.
Qed.

(** C9.  The colour dictionary of a cube is the fixed table from its
    construction on (front red, back magenta, left yellow, right white, top
    green, bottom blue): [__rotation_update__] with any matrix hands it on
    untouched, so does every sequence of rotations of one cube, and every
    cube of the assembly still carries the table after every sequence of
    key events. *)
Theorem colours_never_change :
  (forall position, Cube.colours (Cube.init position) = colour_table) /\
  (forall M c, Cube.colours (Cube.rotation_update M c) = Cube.colours c) /\
  (forall (turns : list (axis * R)) c,
      Cube.colours (fold_left (fun c t => Cube.rotate (fst t) c (snd t)) turns c)
      = Cube.colours c) /\
  (forall keys i j k,
      Cube.colours (get3 (run_keys keys rubik_cube) i j k) = colour_table).
Proof.
  repeat split.
  - intros turns. induction turns as [| [ax theta] turns IH]; intros c; simpl.
    + reflexivity.
    + rewrite IH. rewrite rotate_eq. reflexivity.
  - apply colours_of_assembly.
Qed.

(** ** C10: cells and lattice points *)

(** C10.  At construction and after every sequence of key events the cube
    in cell [i, j, k] has its centre at (i - 1, 1 - j, 1 - k).  So the slice
    [[:, :, 0]] holds exactly the cubes with z = 1 (front), [[:, 0]] exactly
    those with y = 1 (top) and [[0]] exactly those with x = -1 (left), and
    these are the slices the front, top and left keys hand to
    [rotate_face]. *)
Theorem cells_match_lattice (keys : list Z) :
  let g := run_keys keys rubik_cube in
  (forall i j k, Cube.position (get3 rubik_cube i j k) = lattice i j k) /\
  (forall i j k, Cube.position (get3 g i j k) = lattice i j k) /\
  (forall a b,
      get2 (view (slice_2 i0) g) a b = get3 g a b i0 /\
      get2 (view (slice_1 i0) g) a b = get3 g a i0 b /\
      get2 (view (slice_0 i0) g) a b = get3 g i0 a b) /\
  (forall i j k,
      (vz (Cube.position (get3 g i j k)) = 1 <-> k = i0) /\
      (vy (Cube.position (get3 g i j k)) = 1 <-> j = i0) /\
      (vx (Cube.position (get3 g i j k)) = -1 <-> i = i0)) /\
  (forall cw : bool,
      on_key (if cw then KeyboardCommand.rotate_front_cw
              else KeyboardCommand.rotate_front_ccw) g
      = rotate_face (slice_2 i0) axis_z cw g /\
      on_key (if cw then KeyboardCommand.rotate_top_cw
              else KeyboardCommand.rotate_top_ccw) g
      = rotate_face (slice_1 i0) axis_y cw g /\
      on_key (if cw then KeyboardCommand.rotate_left_cw
              else KeyboardCommand.rotate_left_ccw) g
      = rotate_face (slice_0 i0) axis_x cw g).
Proof.
  intros g. split; [apply labelled_start |].
  split; [apply labelled_run |].
  split; [| split].
  - intros a b. repeat split; destruct a, b; reflexivity.
  - intros i j k. unfold g. rewrite labelled_run.
    repeat split; intros H;
      first [ subst; simpl; lra
            | destruct i, j, k; simpl in H; first [reflexivity | exfalso; lra] ].
  - intros [|]; repeat split; reflexivity.
Qed.

(** ** C7: the six normals of a cube *)

(** C7 (as amended).  After every sequence of key events every cube of the
    assembly has its six normals under the six face labels, in the order of
    the table; each normal is a unit vector, the normals of opposite faces
    (front and back, left and right, top and bottom) have inner product -1,
    and the normals of two faces that are neither equal nor opposite are
    orthogonal. *)
Theorem normals_stay_a_frame (keys : list Z) (i j k : ix) :
  let ns := Cube.normal_vectors (get3 (run_keys keys rubik_cube) i j k) in
  map fst ns = face_labels /\
  forall p q n m, In (p, n) ns -> In (q, m) ns -> inner n m = gram p q.
Proof. apply frame_ok_run. Qed.

Lemma normals_stay_a_frame_witness :
  inner (V3 0 0 1) (V3 0 0 (-1)) = gram "front" "back".
Proof.
  apply (proj2 (normals_stay_a_frame [] i0 i0 i0) "front"%string "back"%string).
  - left; reflexivity.
  - right; left; reflexivity.
Defined.

(** C7 fails as stated: already before the first twist the normals of the
    front and the back face of a cube have inner product -1, far from 0, so
    the six normals are not pairwise orthogonal. *)
Lemma normals_not_pairwise_orthogonal :
  ~ pairwise_orthonormal 1e-9
      (map snd (Cube.normal_vectors (get3 (run_keys [] rubik_cube) i0 i0 i0))).
Proof.
  intros [_ H].
  specialize (H 0%nat 1%nat (V3 0 0 1) (V3 0 0 (-1))).
  specialize (H ltac:(discriminate) eq_refl eq_refl).
  unfold inner in H. simpl in H.
  apply Rabs_def2 in H. lra.
Qed.

(** ** C3: four clockwise twists *)

Lemma map_fixed {A : Type} (f : A -> A) (l : list A) :
  (forall x, f x = x) -> map f l = l.
Proof.
  intros H. induction l as [| x l IH]; simpl; [reflexivity |].
  rewrite H, IH. reflexivity.
Qed.

Lemma quarter_four (ax : axis) (v : vec) :
  let M := rotation_about ax (IZR 1 * PI / 2) in
  mdot M (mdot M (mdot M (mdot M v))) = v.
Proof.
  intros M. unfold M. rewrite !mdot_quarter by (left; reflexivity).
  destruct ax, v as [a b c]; unfold quarter; simpl; apply vec_eq; lra.
Qed.

Lemma rotate_four (ax : axis) (c : Cube.t) :
  let theta := IZR 1 * PI / 2 in
  Cube.rotate ax (Cube.rotate ax (Cube.rotate ax (Cube.rotate ax c theta) theta) theta) theta
  = c.
Proof.
  intros theta. rewrite !rotate_eq. destruct c as [fr ba nv co po].
  unfold Cube.rotation_update, dict_map; simpl.
  rewrite !map_map. f_equal.
  - apply map_fixed. intros v. apply quarter_four.
  - apply map_fixed. intros v. apply quarter_four.
  - apply map_fixed. intros [f n]. simpl. f_equal. apply quarter_four.
  - apply quarter_four.
Qed.

Lemma vec_within_refl (eps : R) (v : vec) : 0 < eps -> vec_within eps v v.
Proof.
  intros H. unfold vec_within.
  replace (vx v - vx v) with 0 by lra.
  replace (vy v - vy v) with 0 by lra.
  replace (vz v - vz v) with 0 by lra.
  rewrite Rabs_R0. auto.
Qed.

Lemma Forall2_same {A : Type} (P : A -> A -> Prop) (l : list A) :
  (forall x, P x x) -> Forall2 P l l.
Proof. intros H. induction l; constructor; auto. Qed.

Lemma cube_within_refl (eps : R) (c : Cube.t) : 0 < eps -> cube_within eps c c.
Proof.
  intros H. unfold cube_within.
  repeat split; try apply Forall2_same; intros;
    try split; try reflexivity; apply vec_within_refl; assumption.
Qed.

(** C3.  For every axis, every layer index and every state of the assembly,
    four clockwise twists of the layer give back the assembly: every cell
    holds the cube it held, with the state it had.  The equality is one of
    real arithmetic; so each corner, normal and centre of each of the 27
    cubes is in particular within 1e-9 of its value before. *)
Theorem four_twists_restore (ax : axis) (idx : ix) (g : grid) :
  let t := twist ax idx true in
  t (t (t (t g))) = g /\
  forall i j k, cube_within 1e-9 (get3 (t (t (t (t g)))) i j k) (get3 g i j k).
Proof.
  intros t.
  assert (E : t (t (t (t g))) = g).
  { unfold t. apply grid_ext. intros i j k.
    destruct ax, idx, i, j, k;
      repeat (rewrite twist_cell;
              cbn [in_layer ix_eqb source_cell get3c ix_rev direction_of]);
      first [reflexivity | apply rotate_four]. }
  split; [exact E |].
  intros i j k. rewrite E. apply cube_within_refl. lra.
Qed.

(** ** C5: what one twist touches *)

Lemma labels_give_normals (d : dict vec) :
  map fst d = face_labels ->
  exists n1 n2 n3 n4 n5 n6,
    d = [("front", n1); ("back", n2); ("left", n3);
         ("right", n4); ("top", n5); ("bottom", n6)]%string.
Proof.
  unfold face_labels. intros H.
  destruct d as [| [k1 n1] [| [k2 n2] [| [k3 n3] [| [k4 n4] [| [k5 n5] [| [k6 n6] [| ? ?]]]]]]];
    simpl in H; try discriminate.
  inversion H; subst. exists n1, n2, n3, n4, n5, n6. reflexivity.
Qed.

Lemma unit_not_orthogonal (a b : R) : a * a = 1 -> b * b = 1 -> a * b = 0 -> False.
Proof.
  intros Ha Hb Hab.
  assert (H : (a * b) * (a * b) = 1).
  { replace (a * b * (a * b)) with ((a * a) * (b * b)) by ring.
    rewrite Ha, Hb. ring. }
  rewrite Hab in H. lra.
Qed.

(** A quarter turn about an axis changes every cube whose normals form a
    frame: the normals of front and top cannot both lie on the axis. *)
Lemma rotate_changes (ax : axis) (cw : bool) (c : Cube.t) :
  frame_ok c -> Cube.rotate ax c (IZR (direction_of cw) * PI / 2) <> c.
Proof.
  intros [Hk Hg] E. rewrite rotate_eq in E.
  apply (f_equal Cube.normal_vectors) in E. simpl in E.
  destruct (labels_give_normals _ Hk) as (n1 & n2 & n3 & n4 & n5 & n6 & Hd).
  rewrite Hd in E, Hg. unfold dict_map in E. simpl in E.
  rewrite !mdot_quarter in E by apply direction_of_cases.
  assert (H11 : inner n1 n1 = 1).
  { rewrite (Hg "front" "front" n1 n1)%string; simpl; auto. }
  assert (H55 : inner n5 n5 = 1).
  { rewrite (Hg "top" "top" n5 n5)%string; simpl; auto 10. }
  assert (H15 : inner n1 n5 = 0).
  { rewrite (Hg "front" "top" n1 n5)%string; simpl; auto 10. }
  inversion E as [[E1 E2 E3 E4 E5 E6]]. clear E E2 E3 E4 E6 Hg Hd Hk.
  pose proof (f_equal vx E1) as X1. pose proof (f_equal vy E1) as Y1.
  pose proof (f_equal vz E1) as Z1. pose proof (f_equal vx E5) as X5.
  pose proof (f_equal vy E5) as Y5. pose proof (f_equal vz E5) as Z5.
  clear E1 E5.
  destruct n1 as [a1 b1 c1], n5 as [a5 b5 c5].
  unfold inner in *.
  destruct ax, cw; unfold quarter in *; simpl in *.
  1, 2: assert (b1 = 0) by lra; assert (c1 = 0) by lra;
        assert (b5 = 0) by lra; assert (c5 = 0) by lra; subst;
        apply (unit_not_orthogonal a1 a5); lra.
  1, 2: assert (a1 = 0) by lra; assert (c1 = 0) by lra;
        assert (a5 = 0) by lra; assert (c5 = 0) by lra; subst;
        apply (unit_not_orthogonal b1 b5); lra.
  1, 2: assert (a1 = 0) by lra; assert (b1 = 0) by lra;
        assert (a5 = 0) by lra; assert (b5 = 0) by lra; subst;
        apply (unit_not_orthogonal c1 c5); lra.
Qed.

(** C5.  Take the assembly after any sequence of key events and twist any
    layer in either direction.  The layer has 9 of the 27 cells.  A cell
    outside the layer holds the identical cube state as before.  Into a
    cell of the layer the twist moves the cube of another cell of the same
    layer (for the middle cell: of that cell itself), turned by the quarter
    turn about the axis, and the turned state differs from what that cube
    was; distinct cells receive the cubes of distinct cells. *)
Theorem twist_changes_exactly_the_layer
  (keys : list Z) (ax : axis) (idx : ix) (cw : bool) :
  let g := run_keys keys rubik_cube in
  let g' := twist ax idx cw g in
  let theta := IZR (direction_of cw) * PI / 2 in
  List.length all_cells = 27%nat /\
  List.length (filter (in_layer_c ax idx) all_cells) = 9%nat /\
  List.length (filter (fun c => negb (in_layer_c ax idx c)) all_cells) = 18%nat /\
  (forall i j k,
      if in_layer ax idx i j k
      then in_layer_c ax idx (source_cell ax cw i j k) = true /\
           get3 g' i j k = Cube.rotate ax (get3c g (source_cell ax cw i j k)) theta /\
           get3 g' i j k <> get3c g (source_cell ax cw i j k) /\
           (source_cell ax cw i j k = (i, j, k) <-> is_centre ax i j k = true)
      else get3 g' i j k = get3 g i j k) /\
  (forall c c', source_cell_c ax cw c = source_cell_c ax cw c' -> c = c').
Proof.
  intros g g' theta.
  split; [reflexivity |].
  split; [destruct ax, idx; reflexivity |].
  split; [destruct ax, idx; reflexivity |].
  split.
  - intros i j k. unfold g'. rewrite twist_cell.
    destruct (in_layer ax idx i j k) eqn:Hin; [| reflexivity].
    split; [destruct ax, cw, idx, i, j, k; simpl in Hin; first [discriminate | reflexivity] |].
    split; [reflexivity |].
    split.
    + apply rotate_changes.
      destruct (source_cell ax cw i j k) as [[a b] c]. apply frame_ok_run.
    + destruct ax, cw, i, j, k; simpl; split; intros H;
        first [reflexivity | discriminate].
  - intros [[i j] k] [[i' j'] k'] H.
    destruct ax, cw, i, j, k, i', j', k'; simpl in H;
      first [reflexivity | discriminate].
Qed.

(** ** C8: axis, sign and index permutation of a twist *)

Lemma twist_is_by_steps (ax : axis) (idx : ix) (cw : bool) (g : grid) :
  twist ax idx cw g = twist_by_steps ax idx cw g.
Proof.
  unfold twist, rotate_face, twist_by_steps.
  destruct ax, cw; simpl Z.mul; simpl Z.opp; rewrite ?rot90_1, ?rot90_m1;
    destruct g as [[[? ? ?] [? ? ?] [? ? ?]] [[? ? ?] [? ? ?] [? ? ?]] [[? ? ?] [? ? ?] [? ? ?]]];
    destruct idx; reflexivity.
Qed.

(** C8.  Every turn command of the key dispatch does what the four steps
    say: front, middle and back turn about z, top and bottom about y, left
    and right about x; the cubes of the layer are turned by
    [direction * pi / 2] with [direction] 1 for clockwise and -1 for
    counter clockwise; the slice is then turned by 90 degrees in the
    direction of that sign, negated for the z axis and only there.  The
    turn by [direction * pi / 2] is the quarter turn [quarter]. *)
Theorem twist_axis_sign_and_permutation (g : grid) :
  Forall (fun entry =>
            match entry with
            | (key, (ax, idx, cw)) =>
                on_key key g = rotate_face (slice_of ax idx) ax cw g /\
                rotate_face (slice_of ax idx) ax cw g = twist_by_steps ax idx cw g
            end) twist_keys /\
  (forall ax idx cw, rotate_face (slice_of ax idx) ax cw g = twist_by_steps ax idx cw g) /\
  (forall ax cw v,
      mdot (rotation_about ax (IZR (direction_of cw) * PI / 2)) v
      = quarter ax (IZR (direction_of cw)) v).
Proof.
  split; [| split].
  - unfold twist_keys.
    repeat (apply Forall_cons; [split; [reflexivity | apply twist_is_by_steps] |]).
    apply Forall_nil.
  - intros ax idx cw. apply twist_is_by_steps.
  - intros ax cw v. apply mdot_quarter. apply direction_of_cases.
Qed.

(** ** C6: the colour a cube shows in a direction *)

Lemma insert_desc_In {A : Type} (x y : A * R) (s : list (A * R)) :
  In y (insert_desc x s) -> y = x \/ In y s.
Proof.
  induction s as [| z s IH]; simpl.
  - intros [H | []]; auto.
  - destruct (Rlt_dec (snd x) (snd z)); simpl.
    + intros [H | H]; auto. destruct (IH H); auto.
    + intros [H | H]; auto.
Qed.

Lemma sorted_reverse_In {A : Type} (y : A * R) (l : list (A * R)) :
  In y (sorted_reverse l) -> In y l.
Proof.
  induction l as [| x l IH]; simpl; [auto |].
  intros H. apply insert_desc_In in H. destruct H; auto.
Qed.

(** The head of the sorted list is the first entry with the largest key. *)
Lemma sorted_reverse_head {A : Type} (pre post : list (A * R)) (x : A * R) :
  (forall y, In y pre -> snd y < snd x) ->
  (forall y, In y post -> snd y <= snd x) ->
  exists rest, sorted_reverse (pre ++ x :: post) = x :: rest.
Proof.
  intros Hpre Hpost. induction pre as [| p pre IH].
  - change (sorted_reverse ([] ++ x :: post)) with (insert_desc x (sorted_reverse post)).
    destruct (sorted_reverse post) as [| z s] eqn:E; simpl.
    + exists []. reflexivity.
    + destruct (Rlt_dec (snd x) (snd z)) as [Hlt | _].
      * assert (In z post) by (apply sorted_reverse_In; rewrite E; left; reflexivity).
        specialize (Hpost z H). lra.
      * exists (z :: s). reflexivity.
  - change (sorted_reverse ((p :: pre) ++ x :: post))
      with (insert_desc p (sorted_reverse (pre ++ x :: post))).
    destruct IH as [rest E].
    + intros y Hy. apply Hpre. right. assumption.
    + rewrite E. simpl.
      destruct (Rlt_dec (snd p) (snd x)) as [_ | Hn].
      * eexists. reflexivity.
      * exfalso. apply Hn. apply Hpre. left. reflexivity.
Qed.

Lemma get_face_colour_first_max
  (c : Cube.t) (direction : vec) (pre post : dict vec) (face : string) (normal : vec) :
  Cube.normal_vectors c = pre ++ (face, normal) :: post ->
  (forall f n, In (f, n) pre -> inner direction n < inner direction normal) ->
  (forall f n, In (f, n) post -> inner direction n <= inner direction normal) ->
  Cube.get_face_colour c direction = dict_get (Cube.colours c) face.
Proof.
  intros E Hpre Hpost. unfold Cube.get_face_colour. rewrite E.
  rewrite map_app. simpl.
  destruct (sorted_reverse_head
              (map (fun fn => (fst fn, inner direction (snd fn))) pre)
              (map (fun fn => (fst fn, inner direction (snd fn))) post)
              (face, inner direction normal)) as [rest ->].
  - intros y Hy. apply in_map_iff in Hy. destruct Hy as [[f n] [<- Hy]]. simpl.
    apply (Hpre f n Hy).
  - intros y Hy. apply in_map_iff in Hy. destruct Hy as [[f n] [<- Hy]]. simpl.
    apply (Hpost f n Hy).
  - reflexivity.
Qed.

(** A non-empty list of keyed entries has a first entry with the largest
    key. *)
Lemma first_max_exists {A : Type} (l : list (A * R)) :
  l <> [] ->
  exists pre x post,
    l = pre ++ x :: post /\
    (forall y, In y pre -> snd y < snd x) /\
    (forall y, In y post -> snd y <= snd x).
Proof.
  induction l as [| x l IH]; [congruence |]. intros _.
  destruct l as [| x' l'].
  - exists [], x, []. repeat split; intros y [].
  - destruct IH as (pre & m & post & E & Hpre & Hpost); [discriminate |].
    destruct (Rlt_dec (snd x) (snd m)) as [Hlt | Hge].
    + exists (x :: pre), m, post. rewrite E. repeat split; auto.
      intros y [<- | Hy]; auto.
    + exists [], x, (x' :: l'). repeat split; [intros y [] |].
      intros y Hy. rewrite E in Hy. apply in_app_or in Hy.
      destruct Hy as [Hy | [<- | Hy]].
      * specialize (Hpre y Hy). lra.
      * lra.
      * specialize (Hpost y Hy). lra.
Qed.

Lemma colour_table_total (face : string) :
  In face face_labels -> exists col, dict_get colour_table face = Some col.
Proof.
  unfold face_labels. simpl.
  intros H.
  repeat match goal with
         | H : _ \/ _ |- _ => destruct H as [H | H]
         | H : False |- _ => destruct H
         end; subst; eexists; reflexivity.
Qed.

(** [get_face_colour] answers for every cube whose normals carry the six
    labels and whose colours are the table. *)
Lemma get_face_colour_total (c : Cube.t) (direction : vec) :
  map fst (Cube.normal_vectors c) = face_labels ->
  Cube.colours c = colour_table ->
  exists col, Cube.get_face_colour c direction = Some col.
Proof.
  intros Hk Hc.
  set (keyed := map (fun fn => (fst fn, inner direction (snd fn))) (Cube.normal_vectors c)).
  assert (Hkeys : map fst keyed = face_labels).
  { unfold keyed. rewrite map_map. simpl. assumption. }
  destruct (first_max_exists keyed) as (pre & x & post & E & Hpre & Hpost).
  { intros E0. rewrite E0 in Hkeys. discriminate. }
  destruct (sorted_reverse_head pre post x Hpre Hpost) as [rest Hs].
  unfold Cube.get_face_colour. fold keyed. rewrite E, Hs, Hc.
  apply colour_table_total. rewrite <- Hkeys, E.
  rewrite map_app. apply in_or_app. right. left. reflexivity.
Qed.

(** C6.  [get_face_colour] returns the colour stored under the first label,
    in the order of the normal table, whose normal has the largest inner
    product with the direction: the entries before it have a strictly
    smaller product, the entries after it none larger.  For every cube of
    the assembly, after every sequence of key events, it returns a colour.
    A new cube at (1,1,1) asked for (0,0,1) answers red, the colour of
    front; after [rotate_y] by pi / 2 it answers white, the colour of
    right. *)
Theorem get_face_colour_dominant :
  (forall c direction pre post face normal,
      Cube.normal_vectors c = pre ++ (face, normal) :: post ->
      (forall f n, In (f, n) pre -> inner direction n < inner direction normal) ->
      (forall f n, In (f, n) post -> inner direction n <= inner direction normal) ->
      Cube.get_face_colour c direction = dict_get (Cube.colours c) face) /\
  (forall keys i j k direction,
      exists col,
        Cube.get_face_colour (get3 (run_keys keys rubik_cube) i j k) direction = Some col) /\
  Cube.get_face_colour (Cube.init (V3 1 1 1)) (V3 0 0 1) = Some COLOUR_RED /\
  dict_get (Cube.colours (Cube.init (V3 1 1 1))) "front" = Some COLOUR_RED /\
  Cube.get_face_colour (Cube.rotate_y (Cube.init (V3 1 1 1)) (PI / 2)) (V3 0 0 1)
  = Some COLOUR_WHITE /\
  dict_get (Cube.colours (Cube.init (V3 1 1 1))) "right" = Some COLOUR_WHITE.
Proof.
  split; [exact get_face_colour_first_max |].
  split.
  { intros keys i j k direction. apply get_face_colour_total.
    - apply frame_ok_run.
    - apply colours_of_assembly. }
  split.
  { rewrite (get_face_colour_first_max _ _ []
               [("back", V3 0 0 (-1)); ("left", V3 (-1) 0 0); ("right", V3 1 0 0);
                ("top", V3 0 1 0); ("bottom", V3 0 (-1) 0)]%string
               "front"%string (V3 0 0 1)).
    - reflexivity.
    - reflexivity.
    - intros f n [].
    - intros f n H. simpl in H.
      repeat match goal with
             | H : _ \/ _ |- _ => destruct H as [H | H]
             | H : False |- _ => destruct H
             | H : (_, _) = (_, _) |- _ => inversion H; subst; clear H
             end; unfold inner; simpl; lra. }
  split; [reflexivity |].
  split; [| reflexivity].
  set (M := rotation.Ry (PI / 2)).
  rewrite (get_face_colour_first_max _ _
             [("front", mdot M (V3 0 0 1)); ("back", mdot M (V3 0 0 (-1)));
              ("left", mdot M (V3 (-1) 0 0))]%string
             [("top", mdot M (V3 0 1 0)); ("bottom", mdot M (V3 0 (-1) 0))]%string
             "right"%string (mdot M (V3 1 0 0))).
  - reflexivity.
  - reflexivity.
  - intros f n H. simpl in H.
    repeat match goal with
           | H : _ \/ _ |- _ => destruct H as [H | H]
           | H : False |- _ => destruct H
           | H : (_, _) = (_, _) |- _ => inversion H; subst; clear H
           end; unfold M; vec_simpl; rewrite cos_PI2, sin_PI2; lra.
  - intros f n H. simpl in H.
    repeat match goal with
           | H : _ \/ _ |- _ => destruct H as [H | H]
           | H : False |- _ => destruct H
           | H : (_, _) = (_, _) |- _ => inversion H; subst; clear H
           end; unfold M; vec_simpl; rewrite cos_PI2, sin_PI2; lra.
Qed.

Lemma get_face_colour_dominant_witness :
  Cube.get_face_colour (Cube.init (V3 1 1 1)) (V3 0 0 1)
  = dict_get (Cube.colours (Cube.init (V3 1 1 1))) "front".
Proof.
  apply (proj1 get_face_colour_dominant (Cube.init (V3 1 1 1)) (V3 0 0 1) []
           [("back", V3 0 0 (-1)); ("left", V3 (-1) 0 0); ("right", V3 1 0 0);
            ("top", V3 0 1 0); ("bottom", V3 0 (-1) 0)]%string
           "front"%string (V3 0 0 1)).
  - reflexivity.
  - intros f n [].
  - intros f n H. simpl in H.
    repeat match goal with
           | H : _ \/ _ |- _ => destruct H as [H | H]
           | H : False |- _ => destruct H
           | H : (_, _) = (_, _) |- _ => inversion H; subst; clear H
           end; unfold inner; simpl; lra.
Defined.

(** ** C4: the camera of a zero drag and the camera of a reset *)

Lemma thirty_degrees : 30 / 180 * PI = PI / 6.
Proof. lra. Qed.

Lemma sqrt3_sqr : sqrt 3 * sqrt 3 = 3.
Proof. apply sqrt_sqrt. lra. Qed.

(** The frame of [set_initial_camera]. *)
Lemma reset_frame (a : Artist.t) :
  let r := Artist.set_initial_camera a in
  Artist.camera_x r = V3 (sqrt 3 / 2) 0 (1 / 2) /\
  Artist.camera_y r = V3 (1 / 4) (sqrt 3 / 2) (- sqrt 3 / 4) /\
  Artist.camera_z r = V3 (sqrt 3 / 4) (- 1 / 2) (- 3 / 4) /\
  Artist.camera_position r = V3 (- 3 * sqrt 3 / 2) 3 (9 / 2).
Proof.
  pose proof sqrt3_sqr as H3.
  unfold Artist.set_initial_camera, DISTANCE_TO_CAMERA. simpl.
  rewrite thirty_degrees. vec_simpl. rewrite sin_PI6, cos_PI6.
  repeat split; apply vec_eq; nra.
Qed.

(** The frame after a drag that adds up to nothing. *)
Lemma zero_drag (screen : Screen) (a : Artist.t) :
  let a0 := update_from_drag screen (0, 0)%Z a in
  Artist.camera_x a0 = V3 1 0 0 /\
  Artist.camera_y a0 = V3 0 1 0 /\
  Artist.camera_z a0 = V3 0 0 (-1) /\
  Artist.camera_position a0 = V3 0 0 DISTANCE_TO_CAMERA.
Proof.
  unfold update_from_drag, DISTANCE_TO_CAMERA. simpl.
  replace (0 / IZR (width screen) * PI) with 0 by (unfold Rdiv; ring).
  replace (0 / IZR (height screen) * PI) with 0 by (unfold Rdiv; ring).
  vec_simpl. rewrite sin_0, cos_0.
  repeat split; apply vec_eq; lra.
Qed.

(** C4 (as amended).  On a screen of positive width and height, the camera
    derived from a zero accumulated drag has right = (1,0,0), up = (0,1,0),
    forward = (0,0,-1) and sits at (0,0,D), D = 6; this is what the first
    mouse move without a displacement sets.  It is the base frame of the
    reset, not its result: [set_initial_camera] turns that base frame by
    [Ry(30 deg) @ Rx(30 deg)] and gives right = (sqrt 3 / 2, 0, 1/2),
    up = (1/4, sqrt 3 / 2, - sqrt 3 / 4), forward = (sqrt 3 / 4, -1/2, -3/4)
    and position (- 3 sqrt 3 / 2, 3, 9/2). *)
Theorem zero_drag_gives_base_frame (screen : Screen) (a : Artist.t) :
  (0 < width screen)%Z -> (0 < height screen)%Z ->
  let a0 := update_from_drag screen (0, 0)%Z a in
  let r := Artist.set_initial_camera a in
  (Artist.camera_x a0 = V3 1 0 0 /\
   Artist.camera_y a0 = V3 0 1 0 /\
   Artist.camera_z a0 = V3 0 0 (-1) /\
   Artist.camera_position a0 = V3 0 0 DISTANCE_TO_CAMERA) /\
  artist (on_mouse screen 0 0 0 (mouse_start screen))
  = update_from_drag screen (0, 0)%Z (Artist.init screen) /\
  (Artist.camera_x r = mdot (matmul (rotation.Ry (PI / 6)) (rotation.Rx (PI / 6))) (V3 1 0 0) /\
   Artist.camera_x r = V3 (sqrt 3 / 2) 0 (1 / 2) /\
   Artist.camera_y r = V3 (1 / 4) (sqrt 3 / 2) (- sqrt 3 / 4) /\
   Artist.camera_z r = V3 (sqrt 3 / 4) (- 1 / 2) (- 3 / 4) /\
   Artist.camera_position r = V3 (- 3 * sqrt 3 / 2) 3 (9 / 2)).
Proof.
  intros _ _ a0 r.
  split; [apply zero_drag |].
  split; [reflexivity |].
  split; [unfold r; simpl; rewrite thirty_degrees; reflexivity |].
  apply reset_frame.
Qed.

Lemma zero_drag_gives_base_frame_witness :
  let screen := Build_Screen 80 24 in
  let a0 := update_from_drag screen (0, 0)%Z (Artist.init screen) in
  Artist.camera_x a0 = V3 1 0 0 /\
  Artist.camera_y a0 = V3 0 1 0 /\
  Artist.camera_z a0 = V3 0 0 (-1) /\
  Artist.camera_position a0 = V3 0 0 DISTANCE_TO_CAMERA.
Proof.
  apply (zero_drag_gives_base_frame (Build_Screen 80 24) (Artist.init (Build_Screen 80 24))).
  - reflexivity.
  - reflexivity.
Defined.

(** C4 fails as stated: on an 80 x 24 screen the camera of a zero drag is
    not the camera of the reset; their right vectors differ in z, 0 against
    1/2. *)
Lemma zero_drag_is_not_reset :
  let screen := Build_Screen 80 24 in
  update_from_drag screen (0, 0)%Z (Artist.init screen)
  <> Artist.set_initial_camera (Artist.init screen).
Proof.
  intros screen E.
  apply (f_equal (fun a => vz (Artist.camera_x a))) in E.
  destruct (zero_drag screen (Artist.init screen)) as [Hx _].
  destruct (reset_frame (Artist.init screen)) as [Hr _].
  cbv zeta in Hx, Hr. rewrite Hx, Hr in E. simpl in E. lra.
Qed.

(** ** C1: the degenerate projection *)

(** C1, the code at the failing input.  The camera of a zero drag on an
    80 x 24 screen looks from (0,0,6) along (0,0,-1).  For the point
    (0,0,6 - 2^-21) the denominator [forward . (point - position)] is 2^-21,
    below 1e-6.  [Artist.project3d] of the package has no test: it returns
    the screen centre (40, 12), and [Artist.line] issues its two calls.  The
    first [project3d] does return [None] there, and its caller [line] then
    fails on unpacking it instead of leaving the line out. *)
Theorem project3d_without_guard :
  let screen := Build_Screen 80 24 in
  let a := update_from_drag screen (0, 0)%Z (Artist.init screen) in
  let point := V3 0 0 (6 - / 2097152) in
  let old := Legacy.mkArtist 24 80 40 12 (Artist.camera_position a) (Artist.camera_x a)
                             (Artist.camera_y a) (Artist.camera_z a) in
  Rabs (inner (Artist.camera_z a) (vsub point (Artist.camera_position a))) < 1e-6 /\
  Artist.project3d a point = (40, 12) /\
  Artist.line a point point = [move 40 12; draw 40 12] /\
  Legacy.project3d point (Artist.camera_position a) (Artist.camera_x a)
                   (Artist.camera_y a) (Artist.camera_z a) = None /\
  Legacy.line old point point = None.
Proof.
  intros screen a point old.
  destruct (zero_drag screen (Artist.init screen)) as (Hx & Hy & Hz & Hp).
  cbv zeta in Hx, Hy, Hz, Hp. fold a in Hx, Hy, Hz, Hp.
  assert (Hd : inner (Artist.camera_z a) (vsub point (Artist.camera_position a))
               = / 2097152).
  { rewrite Hz, Hp. unfold point, DISTANCE_TO_CAMERA. vec_simpl. lra. }
  assert (Hsmall : Rabs (/ 2097152) < 1e-6).
  { rewrite Rabs_pos_eq; lra. }
  assert (Hproj : Artist.project3d a point = (40, 12)).
  { unfold Artist.project3d. rewrite Hd, Hx, Hy, Hp.
    assert (Ecx : Artist.cx a = 40) by (simpl; lra).
    assert (Ecy : Artist.cy a = 12) by (simpl; lra).
    rewrite Ecx, Ecy. unfold point, DISTANCE_TO_CAMERA. vec_simpl.
    f_equal; field. }
  assert (Hold : Legacy.project3d point (Artist.camera_position a) (Artist.camera_x a)
                   (Artist.camera_y a) (Artist.camera_z a) = None).
  { unfold Legacy.project3d. rewrite Hd.
    destruct (Rlt_dec (Rabs (/ 2097152)) 1e-6); [reflexivity | contradiction]. }
  split; [rewrite Hd; exact Hsmall |].
  split; [exact Hproj |].
  split; [unfold Artist.line; rewrite Hproj; reflexivity |].
  split; [exact Hold |].
  unfold Legacy.line, old.
  cbn [Legacy.camera_position Legacy.camera_x Legacy.camera_y Legacy.camera_z].
  rewrite Hold. reflexivity.
Qed.

(** * Further properties of the code *)

(** ** Rotation matrices *)

Lemma mdot_matmul (A B : mat) (v : vec) : mdot (matmul A B) v = mdot A (mdot B v).
Proof.
  destruct A as [[? ? ?] [? ? ?] [? ? ?]], B as [[? ? ?] [? ? ?] [? ? ?]], v as [? ? ?].
  vec_simpl. apply vec_eq; ring.
Qed.

Lemma mat_eq (a b c a' b' c' : vec) :
  a = a' -> b = b' -> c = c' -> M3 a b c = M3 a' b' c'.
Proof. intros; subst; reflexivity. Qed.

Lemma rotation_add (ax : axis) (a b : R) :
  matmul (rotation_about ax a) (rotation_about ax b) = rotation_about ax (a + b).
Proof.
  destruct ax; simpl; unfold rotation.Rx, rotation.Ry, rotation.Rz, matmul;
    vec_simpl; rewrite cos_plus, sin_plus; apply mat_eq; apply vec_eq; ring.
Qed.

Lemma rotation_zero (ax : axis) : rotation_about ax 0 = identity.
Proof.
  destruct ax; simpl; unfold rotation.Rx, rotation.Ry, rotation.Rz, identity;
    rewrite cos_0, sin_0; apply mat_eq; apply vec_eq; ring.
Qed.

Lemma mdot_identity (v : vec) : mdot identity v = v.
Proof. destruct v. vec_simpl. apply vec_eq; ring. Qed.

(** X1.  Rotations about one axis compose by adding their angles, the
    rotation by 0 is the identity, and the transpose of a rotation, which is
    the rotation by the negated angle, undoes it.  So every matrix of the
    module is orthogonal. *)
Theorem rotation_group_laws (ax : axis) (a b : R) :
  matmul (rotation_about ax a) (rotation_about ax b) = rotation_about ax (a + b) /\
  rotation_about ax 0 = identity /\
  rotation_about ax (- a) = transpose (rotation_about ax a) /\
  matmul (rotation_about ax a) (transpose (rotation_about ax a)) = identity /\
  matmul (transpose (rotation_about ax a)) (rotation_about ax a) = identity.
Proof.
  assert (T : rotation_about ax (- a) = transpose (rotation_about ax a)).
  { destruct ax; simpl; unfold rotation.Rx, rotation.Ry, rotation.Rz, transpose;
      vec_simpl; rewrite cos_neg, sin_neg; apply mat_eq; apply vec_eq; ring. }
  split; [apply rotation_add |].
  split; [apply rotation_zero |].
  split; [exact T |].
  rewrite <- T. rewrite !rotation_add.
  replace (a + - a) with 0 by lra. replace (- a + a) with 0 by lra.
  split; apply rotation_zero.
Qed.

(** ** Rotations of one cube *)

Lemma rotation_update_compose (A B : mat) (c : Cube.t) :
  Cube.rotation_update A (Cube.rotation_update B c) = Cube.rotation_update (matmul A B) c.
Proof.
  destruct c as [fr ba nv co po].
  unfold Cube.rotation_update, dict_map; simpl. rewrite !map_map. f_equal.
  - apply map_ext. intros v. symmetry. apply mdot_matmul.
  - apply map_ext. intros v. symmetry. apply mdot_matmul.
  - apply map_ext. intros [f n]. simpl. f_equal. symmetry. apply mdot_matmul.
  - symmetry. apply mdot_matmul.
Qed.

Lemma rotation_update_identity (c : Cube.t) : Cube.rotation_update identity c = c.
Proof.
  destruct c as [fr ba nv co po].
  unfold Cube.rotation_update, dict_map; simpl. f_equal.
  - apply map_fixed. apply mdot_identity.
  - apply map_fixed. apply mdot_identity.
  - apply map_fixed. intros [f n]. simpl. f_equal. apply mdot_identity.
  - apply mdot_identity.
Qed.

Lemma rotate_add (ax : axis) (c : Cube.t) (a b : R) :
  Cube.rotate ax (Cube.rotate ax c a) b = Cube.rotate ax c (a + b).
Proof.
  rewrite !rotate_eq, rotation_update_compose, rotation_add.
  f_equal. f_equal. lra.
Qed.

Lemma rotate_zero (ax : axis) (c : Cube.t) : Cube.rotate ax c 0 = c.
Proof. rewrite rotate_eq, rotation_zero. apply rotation_update_identity. Qed.

(** X2.  [rotate_x], [rotate_y] and [rotate_z] act on a cube as the angles
    add: turning by [a] and then by [b] about one axis is turning by
    [a + b], turning by 0 changes nothing, and turning back by [- a]
    restores corners, normals, centre and colours. *)
Theorem cube_rotations_add (ax : axis) (c : Cube.t) (a b : R) :
  Cube.rotate ax (Cube.rotate ax c a) b = Cube.rotate ax c (a + b) /\
  Cube.rotate ax c 0 = c /\
  Cube.rotate ax (Cube.rotate ax c a) (- a) = c.
Proof.
  split; [apply rotate_add |].
  split; [apply rotate_zero |].
  rewrite rotate_add. replace (a + - a) with 0 by lra. apply rotate_zero.
Qed.

(** ** Twists undo each other and parallel twists commute *)

Lemma rotate_undo (ax : axis) (c : Cube.t) (cw : bool) :
  Cube.rotate ax (Cube.rotate ax c (IZR (direction_of cw) * PI / 2))
              (IZR (direction_of (negb cw)) * PI / 2) = c.
Proof.
  rewrite rotate_add.
  replace (IZR (direction_of cw) * PI / 2 + IZR (direction_of (negb cw)) * PI / 2)
    with 0 by (destruct cw; simpl; lra).
  apply rotate_zero.
Qed.

(** X3.  A twist of a layer followed by the twist of the same layer in the
    other direction gives back the assembly, whichever comes first and
    whatever the state: every cell holds the cube it held, in the state it
    had. *)
Theorem twist_then_back (ax : axis) (idx : ix) (cw : bool) (g : grid) :
  twist ax idx (negb cw) (twist ax idx cw g) = g.
Proof.
  apply grid_ext. intros i j k.
  destruct ax, idx, cw, i, j, k;
    repeat (rewrite twist_cell;
            cbn [in_layer ix_eqb source_cell get3c ix_rev negb]);
    first [ reflexivity
          | apply (rotate_undo _ _ true)
          | apply (rotate_undo _ _ false) ].
Qed.

(** X4.  Twists of two different layers along the same axis commute, in
    every combination of directions: they touch disjoint cells. *)
Theorem parallel_twists_commute
  (ax : axis) (idx idx' : ix) (cw cw' : bool) (g : grid) :
  idx <> idx' ->
  twist ax idx cw (twist ax idx' cw' g) = twist ax idx' cw' (twist ax idx cw g).
Proof.
  intros Hne. apply grid_ext. intros i j k.
  destruct ax, idx, idx'; try congruence; clear Hne;
    destruct cw, cw', i, j, k;
    repeat (rewrite twist_cell;
            cbn [in_layer ix_eqb source_cell get3c ix_rev]);
    reflexivity.
Qed.

Lemma parallel_twists_commute_witness :
  twist axis_z i0 true (twist axis_z i2 false rubik_cube)
  = twist axis_z i2 false (twist axis_z i0 true rubik_cube).
Proof.
  apply (parallel_twists_commute axis_z i0 i2 true false rubik_cube). discriminate.
Defined.

(** ** Key events *)

Lemma on_key_other (key : Z) (g : grid) :
  ~ In key (map fst twist_keys) -> on_key key g = g.
Proof.
  intros Hn. unfold on_key. cbv zeta beta.
  repeat match goal with
         | |- context [(key =? ?c)%Z] =>
             destruct (Z.eqb_spec key c) as [E | _];
             [ exfalso; apply Hn; rewrite E; simpl; auto 20 | ]
         end.
  reflexivity.
Qed.

Lemma run_keys_app (keys keys' : list Z) (g : grid) :
  ~ In KeyboardCommand.quit keys ->
  run_keys (keys ++ keys') g = run_keys keys' (run_keys keys g).
Proof.
  revert g. induction keys as [| key keys IH]; intros g Hq; simpl.
  - reflexivity.
  - destruct (Z.eqb_spec key KeyboardCommand.quit) as [E | _].
    + exfalso. apply Hq. left. assumption.
    + apply IH. intros H. apply Hq. right. assumption.
Qed.

(** X5.  The seventeen command codes are pairwise different, so every turn
    key reaches its own branch of the dispatch.  A key that is not one of
    the fourteen turn keys leaves the assembly as it is.  [quit] ends the
    loop: the events after the first [quit] have no effect on the assembly,
    and without a [quit] a sequence of events acts as its parts in turn. *)
Theorem keys_dispatch (key : Z) (keys keys' : list Z) (g : grid) :
  NoDup command_codes /\
  (~ In key (map fst twist_keys) -> on_key key g = g) /\
  (~ In KeyboardCommand.quit keys ->
   run_keys (keys ++ keys') g = run_keys keys' (run_keys keys g)) /\
  (~ In KeyboardCommand.quit keys ->
   run_keys (keys ++ KeyboardCommand.quit :: keys') g = run_keys keys g).
Proof.
  split.
  { unfold command_codes. simpl.
    repeat (constructor; [simpl; intros H;
                          repeat (destruct H as [H | H]; [discriminate H |]);
                          exact H |]).
    constructor. }
  split; [apply on_key_other |].
  split; [apply run_keys_app |].
  intros Hq. rewrite run_keys_app by assumption. reflexivity.
Qed.

Lemma keys_dispatch_witness :
  on_key KeyboardCommand.help rubik_cube = rubik_cube /\
  run_keys ([KeyboardCommand.rotate_top_cw] ++ [KeyboardCommand.help]) rubik_cube
  = run_keys [KeyboardCommand.help] (run_keys [KeyboardCommand.rotate_top_cw] rubik_cube) /\
  run_keys ([KeyboardCommand.rotate_top_cw]
            ++ KeyboardCommand.quit :: [KeyboardCommand.rotate_top_cw]) rubik_cube
  = run_keys [KeyboardCommand.rotate_top_cw] rubik_cube.
Proof.
  pose proof (keys_dispatch KeyboardCommand.help [KeyboardCommand.rotate_top_cw]
                            [KeyboardCommand.help] rubik_cube) as (_ & H1 & H2 & _).
  pose proof (keys_dispatch KeyboardCommand.help [KeyboardCommand.rotate_top_cw]
                            [KeyboardCommand.rotate_top_cw] rubik_cube) as (_ & _ & _ & H3).
  split; [apply H1 | split; [apply H2 | apply H3]];
    simpl; intros H;
    repeat (destruct H as [H | H]; [discriminate H |]); exact H.
Defined.

(** ** The camera *)

Lemma inner_comm (u v : vec) : inner u v = inner v u.
Proof. unfold inner. ring. Qed.

Lemma inner_vneg_r (u v : vec) : inner u (vneg v) = - inner u v.
Proof. unfold inner, vneg. simpl. ring. Qed.

Lemma inner_vneg_l (u v : vec) : inner (vneg u) v = - inner u v.
Proof. unfold inner, vneg. simpl. ring. Qed.

Lemma inner_vadd_l (u v w : vec) : inner (vadd u v) w = inner u w + inner v w.
Proof. unfold inner, vadd. simpl. ring. Qed.

Lemma inner_vadd_r (u v w : vec) : inner u (vadd v w) = inner u v + inner u w.
Proof. unfold inner, vadd. simpl. ring. Qed.

Lemma inner_vscale_l (k : R) (u v : vec) : inner (vscale k u) v = k * inner u v.
Proof. unfold inner, vscale. simpl. ring. Qed.

Lemma inner_vscale_r (k : R) (u v : vec) : inner u (vscale k v) = k * inner u v.
Proof. unfold inner, vscale. simpl. ring. Qed.

Lemma inner_vsub_r (u v w : vec) : inner u (vsub v w) = inner u v - inner u w.
Proof. unfold inner, vsub. simpl. ring. Qed.

Lemma mdot_vsub (M : mat) (u v : vec) : mdot M (vsub u v) = vsub (mdot M u) (mdot M v).
Proof. unfold mdot, vsub, inner. simpl. apply vec_eq; ring. Qed.

Lemma mdot_vneg (M : mat) (u : vec) : mdot M (vneg u) = vneg (mdot M u).
Proof. unfold mdot, vneg, inner. simpl. apply vec_eq; ring. Qed.

Lemma mdot_vscale (M : mat) (k : R) (u : vec) : mdot M (vscale k u) = vscale k (mdot M u).
Proof. unfold mdot, vscale, inner. simpl. apply vec_eq; ring. Qed.

(** Rotations turn the cross product with the vectors. *)
Lemma rotation_cross (ax : axis) (theta : R) (u v : vec) :
  cross (mdot (rotation_about ax theta) u) (mdot (rotation_about ax theta) v)
  = mdot (rotation_about ax theta) (cross u v).
Proof.
  pose proof (sin2_cos2 theta) as H. unfold Rsqr in H.
  destruct u as [a b c], v as [a' b' c'].
  destruct ax; unfold cross; vec_simpl; apply vec_eq; try ring.
  - replace (b * c' - c * b')
      with ((sin theta * sin theta + cos theta * cos theta) * (b * c' - c * b'))
      by (rewrite H; ring).
    ring.
  - replace (0 * (b * c' - c * b') + 1 * (c * a' - a * c') + 0 * (a * b' - b * a'))
      with ((sin theta * sin theta + cos theta * cos theta) * (c * a' - a * c'))
      by (rewrite H; ring).
    ring.
  - replace (0 * (b * c' - c * b') + 0 * (c * a' - a * c') + 1 * (a * b' - b * a'))
      with ((sin theta * sin theta + cos theta * cos theta) * (a * b' - b * a'))
      by (rewrite H; ring).
    ring.
Qed.

(** The frame both camera routines build from [Ry(alpha) @ Rx(beta)]. *)
Lemma frame_of_rotation (alpha beta : R) :
  let M := matmul (rotation.Ry alpha) (rotation.Rx beta) in
  let x := mdot M (V3 1 0 0) in
  let y := mdot M (V3 0 1 0) in
  let z := vneg (mdot M (V3 0 0 1)) in
  inner x x = 1 /\ inner y y = 1 /\ inner z z = 1 /\
  inner x y = 0 /\ inner x z = 0 /\ inner y z = 0 /\
  z = vneg (cross x y).
Proof.
  intros M x y z.
  assert (I : forall u v, inner (mdot M u) (mdot M v) = inner u v).
  { intros u v. unfold M. rewrite !mdot_matmul.
    rewrite (rotation_inner axis_y), (rotation_inner axis_x). reflexivity. }
  unfold x, y, z.
  rewrite ?inner_vneg_r, ?inner_vneg_l, !I.
  repeat split; try (unfold inner; simpl; ring).
  f_equal. unfold M. rewrite !mdot_matmul.
  rewrite (rotation_cross axis_y), (rotation_cross axis_x).
  f_equal. f_equal. unfold cross. simpl. apply vec_eq; ring.
Qed.

Lemma camera_ok_drag (screen : Screen) (drag : Z * Z) (a : Artist.t) :
  camera_ok (update_from_drag screen drag a).
Proof.
  unfold camera_ok, update_from_drag. simpl.
  destruct (frame_of_rotation (IZR (fst drag) / IZR (width screen) * PI)
                              (IZR (snd drag) / IZR (height screen) * PI))
    as (H1 & H2 & H3 & H4 & H5 & H6 & H7).
  repeat split; try assumption.
  unfold vscale, vneg. simpl. apply vec_eq; ring.
Qed.

Lemma camera_ok_reset (a : Artist.t) : camera_ok (Artist.set_initial_camera a).
Proof.
  unfold camera_ok, Artist.set_initial_camera. simpl.
  destruct (frame_of_rotation (30 / 180 * PI) (30 / 180 * PI))
    as (H1 & H2 & H3 & H4 & H5 & H6 & H7).
  repeat split; try assumption.
  replace (V3 0 0 DISTANCE_TO_CAMERA) with (vscale DISTANCE_TO_CAMERA (V3 0 0 1))
    by (unfold vscale; simpl; apply vec_eq; ring).
  rewrite mdot_vscale. unfold vscale, vneg. simpl. apply vec_eq; ring.
Qed.

Lemma camera_ok_distance (a : Artist.t) :
  camera_ok a ->
  inner (Artist.camera_position a) (Artist.camera_position a)
  = DISTANCE_TO_CAMERA * DISTANCE_TO_CAMERA.
Proof.
  intros (_ & _ & Hz & _ & _ & _ & _ & Hp).
  rewrite Hp, inner_vscale_l, inner_vscale_r, Hz. ring.
Qed.

(** X6.  Whatever the accumulated drag and the screen, the camera the drag
    sets is a proper camera: right, up and forward are orthogonal unit
    vectors, forward is the negative cross product of right and up, and the
    camera sits at distance [DISTANCE_TO_CAMERA] from the origin on the
    line through it along forward, looking at it.  The camera of
    [set_initial_camera], and so of a new [Artist], is one as well. *)
Theorem cameras_are_orthonormal (screen : Screen) (drag : Z * Z) (a : Artist.t) :
  camera_ok (update_from_drag screen drag a) /\
  camera_ok (Artist.set_initial_camera a) /\
  camera_ok (Artist.init screen) /\
  norm (Artist.camera_position (update_from_drag screen drag a)) = DISTANCE_TO_CAMERA /\
  norm (Artist.camera_position (Artist.set_initial_camera a)) = DISTANCE_TO_CAMERA.
Proof.
  assert (N : forall b, camera_ok b -> norm (Artist.camera_position b) = DISTANCE_TO_CAMERA).
  { intros b Hb. unfold norm. rewrite (camera_ok_distance b Hb).
    apply sqrt_square. unfold DISTANCE_TO_CAMERA. lra. }
  split; [apply camera_ok_drag |].
  split; [apply camera_ok_reset |].
  split; [apply camera_ok_reset |].
  split; apply N; [apply camera_ok_drag | apply camera_ok_reset].
Qed.

(** ** Mouse events *)

Lemma update_from_drag_again (screen : Screen) (d d' : Z * Z) (a : Artist.t) :
  update_from_drag screen d (update_from_drag screen d' a) = update_from_drag screen d a.
Proof. reflexivity. Qed.

Lemma run_mouse_moves (screen : Screen) (positions : list (Z * Z)) (last : Z * Z)
  (st : mouse_state) :
  auto_mouse st = true ->
  let st' := run_mouse screen (moves (positions ++ [last])) st in
  camera_2d st' = (fst (camera_2d st) + (fst last - fst (start_pos st)),
                   snd (camera_2d st) + (snd last - snd (start_pos st)))%Z /\
  start_pos st' = last /\
  auto_mouse st' = true /\
  artist st' = update_from_drag screen (camera_2d st') (artist st).
Proof.
  revert st. induction positions as [| p positions IH]; intros st Ha.
  - simpl. unfold on_mouse. simpl. rewrite Ha. simpl.
    destruct last as [x y]. simpl. repeat split; reflexivity.
  - simpl app. unfold moves. simpl map. simpl run_mouse. fold (moves (positions ++ [last])).
    set (st1 := on_mouse screen (fst p) (snd p) 0 st).
    assert (H1 : auto_mouse st1 = true /\ start_pos st1 = p /\
                 camera_2d st1 = (fst (camera_2d st) + (fst p - fst (start_pos st)),
                                  snd (camera_2d st) + (snd p - snd (start_pos st)))%Z /\
                 artist st1 = update_from_drag screen (camera_2d st1) (artist st)).
    { unfold st1, on_mouse. simpl. rewrite Ha. simpl. destruct p; repeat split; reflexivity. }
    destruct H1 as (A1 & S1 & C1 & R1).
    destruct (IH st1 A1) as (C & S & A & Rr).
    cbv zeta in C, S, A, Rr |- *.
    split; [| split; [exact S | split; [exact A |]]].
    + rewrite C, S1, C1. simpl. f_equal; lia.
    + rewrite Rr, R1. apply update_from_drag_again.
Qed.

(** X7.  Mouse handling.  (1) After any sequence of mouse events from the
    start of the loop the camera is a proper camera.  (2) While dragging is
    enabled, a run of moves without a button adds up: the accumulated drag
    grows by the last position minus the position before the run, and the
    camera is the one [update_from_drag] derives from that total, whatever
    the path in between.  (3) A press does not move the camera, it toggles
    dragging and remembers where it happened; while dragging is disabled a
    move changes nothing. *)
Theorem mouse_drag_accumulates
  (screen : Screen) (events : list (Z * Z * Z)) (positions : list (Z * Z))
  (last : Z * Z) (x y b : Z) (st : mouse_state) :
  camera_ok (artist (run_mouse screen events (mouse_start screen))) /\
  (auto_mouse st = true ->
   let st' := run_mouse screen (moves (positions ++ [last])) st in
   camera_2d st' = (fst (camera_2d st) + (fst last - fst (start_pos st)),
                    snd (camera_2d st) + (snd last - snd (start_pos st)))%Z /\
   start_pos st' = last /\
   auto_mouse st' = true /\
   artist st' = update_from_drag screen (camera_2d st') (artist st)) /\
  (b <> 0%Z ->
   on_mouse screen x y b st
   = MouseState (artist st) (camera_2d st) (x, y) (negb (auto_mouse st))) /\
  (auto_mouse st = false -> on_mouse screen x y 0 st = st).
Proof.
  split.
  { assert (G : forall evs s, camera_ok (artist s) ->
                              camera_ok (artist (run_mouse screen evs s))).
    { intros evs. induction evs as [| [[ex ey] eb] evs IH]; intros s Hs; simpl.
      - assumption.
      - apply IH. unfold on_mouse.
        destruct (negb (eb =? 0)%Z); [assumption |].
        destruct (auto_mouse s); [| assumption].
        apply camera_ok_drag. }
    apply G. simpl. apply camera_ok_reset. }
  split; [apply run_mouse_moves |].
  split.
  - intros Hb. unfold on_mouse.
    destruct (Z.eqb_spec b 0) as [E | _]; [contradiction | reflexivity].
  - intros Ha. unfold on_mouse. simpl. rewrite Ha. reflexivity.
Qed.

Lemma mouse_drag_accumulates_witness :
  let screen := Build_Screen 80 24 in
  let st := mouse_start screen in
  let st' := run_mouse screen (moves ([(3, 1); (7, 2)] ++ [(5, 4)]))%Z st in
  camera_2d st' = (fst (camera_2d st) + (5 - fst (start_pos st)),
                   snd (camera_2d st) + (4 - snd (start_pos st)))%Z /\
  start_pos st' = (5, 4)%Z /\
  auto_mouse st' = true /\
  artist st' = update_from_drag screen (camera_2d st') (artist st).
Proof.
  intros screen st.
  apply (proj1 (proj2 (mouse_drag_accumulates screen [] [(3, 1); (7, 2)]%Z (5, 4)%Z
                                             0%Z 0%Z 0%Z st))).
  reflexivity.
Defined.

(** ** The projection *)

Lemma vadd_vsub_cancel (a b : vec) : vsub (vadd a b) a = b.
Proof. destruct a, b. unfold vsub, vadd. simpl. apply vec_eq; ring. Qed.

Lemma project3d_frame (a : Artist.t) (t u v : R) :
  camera_ok a -> t <> 0 ->
  Artist.project3d a
    (vadd (Artist.camera_position a)
          (vadd (vscale t (Artist.camera_z a))
                (vadd (vscale u (Artist.camera_x a)) (vscale v (Artist.camera_y a)))))
  = (Artist.cx a * (1 + u / t), Artist.cy a * (1 - v / t)).
Proof.
  intros (Hxx & Hyy & Hzz & Hxy & Hxz & Hyz & _ & Hp) Ht.
  unfold Artist.project3d.
  set (x := Artist.camera_x a) in *. set (y := Artist.camera_y a) in *.
  set (z := Artist.camera_z a) in *. set (cam := Artist.camera_position a) in *.
  set (w := vadd (vscale t z) (vadd (vscale u x) (vscale v y))).
  rewrite vadd_vsub_cancel.
  assert (Hd : inner z w = t).
  { unfold w. rewrite !inner_vadd_r, !inner_vscale_r, Hzz.
    rewrite (inner_comm z x), (inner_comm z y), Hxz, Hyz. ring. }
  rewrite Hd.
  assert (Hx : inner (vadd (vscale (1 / t) w) cam) x = u / t).
  { unfold w. rewrite inner_vadd_l, inner_vscale_l, !inner_vadd_l, !inner_vscale_l.
    rewrite Hp, inner_vscale_l.
    rewrite (inner_comm z x), (inner_comm y x), Hxx, Hxy, Hxz. field. assumption. }
  assert (Hy : inner (vadd (vscale (1 / t) w) cam) y = v / t).
  { unfold w. rewrite inner_vadd_l, inner_vscale_l, !inner_vadd_l, !inner_vscale_l.
    rewrite Hp, inner_vscale_l.
    rewrite (inner_comm z y), Hyy, Hxy, Hyz. field. assumption. }
  rewrite Hx, Hy. reflexivity.
Qed.

(** X8.  The projection is the pinhole camera.  For a proper camera, the
    point at depth [t] along forward and offsets [u] along right and [v]
    along up from the camera lands at
    [(cx * (1 + u / t), cy * (1 - v / t))]; the origin, which the camera
    looks at, lands in the screen centre [(cx, cy)].  For any camera, all
    points of a line through the camera position land on one screen point
    (as long as the denominator is not 0). *)
Theorem projection_is_perspective (a : Artist.t) (t u v s : R) (p : vec) :
  (camera_ok a -> t <> 0 ->
   Artist.project3d a
     (vadd (Artist.camera_position a)
           (vadd (vscale t (Artist.camera_z a))
                 (vadd (vscale u (Artist.camera_x a)) (vscale v (Artist.camera_y a)))))
   = (Artist.cx a * (1 + u / t), Artist.cy a * (1 - v / t))) /\
  (camera_ok a -> Artist.project3d a (V3 0 0 0) = (Artist.cx a, Artist.cy a)) /\
  (s <> 0 -> denominator a p <> 0 ->
   Artist.project3d a
     (vadd (Artist.camera_position a) (vscale s (vsub p (Artist.camera_position a))))
   = Artist.project3d a p).
Proof.
  split; [apply project3d_frame |].
  split.
  - intros Hok.
    pose proof (project3d_frame a DISTANCE_TO_CAMERA 0 0 Hok) as H.
    destruct Hok as (_ & _ & _ & _ & _ & _ & _ & Hp).
    replace (vadd (Artist.camera_position a)
                  (vadd (vscale DISTANCE_TO_CAMERA (Artist.camera_z a))
                        (vadd (vscale 0 (Artist.camera_x a))
                              (vscale 0 (Artist.camera_y a)))))
      with (V3 0 0 0) in H
      by (rewrite Hp; unfold vadd, vscale; simpl; apply vec_eq; ring).
    rewrite H by (unfold DISTANCE_TO_CAMERA; lra).
    unfold DISTANCE_TO_CAMERA. f_equal; field.
  - intros Hs Hd. unfold denominator in Hd. unfold Artist.project3d.
    set (cam := Artist.camera_position a) in *. set (z := Artist.camera_z a) in *.
    set (q := vsub p cam) in *.
    rewrite vadd_vsub_cancel.
    rewrite inner_vscale_r.
    set (d := inner z q) in *.
    replace (vadd (vscale (1 / (s * d)) (vscale s q)) cam)
      with (vadd (vscale (1 / d) q) cam)
      by (unfold vadd, vscale; simpl; apply vec_eq; field; auto).
    reflexivity.
Qed.

Lemma projection_is_perspective_witness :
  let a := Artist.init (Build_Screen 80 24) in
  Artist.project3d a (V3 0 0 0) = (Artist.cx a, Artist.cy a).
Proof.
  intros a.
  apply (proj1 (proj2 (projection_is_perspective a 1 0 0 1 (V3 0 0 0)))).
  apply camera_ok_reset.
Defined.

(** ** The denominator for the points that are drawn *)

Lemma cauchy_schwarz (u p : vec) : inner u p * inner u p <= inner u u * inner p p.
Proof.
  destruct u as [a b c], p as [x y z]. unfold inner. simpl.
  pose proof (Rle_0_sqr (a * y - b * x)) as H1.
  pose proof (Rle_0_sqr (a * z - c * x)) as H2.
  pose proof (Rle_0_sqr (b * z - c * y)) as H3.
  unfold Rsqr in *. nra.
Qed.

Lemma corners_bounded_init (i j k : ix) : corners_bounded (Cube.init (lattice i j k)).
Proof.
  intros p Hp. unfold corners in Hp. simpl in Hp.
  repeat match goal with
         | H : _ \/ _ |- _ => destruct H as [H | H]
         | H : False |- _ => destruct H
         end; subst p;
    destruct i, j, k; unfold inner, vadd, vdiv, lattice, coord; simpl; lra.
Qed.

Lemma corners_rotate (ax : axis) (c : Cube.t) (theta : R) :
  corners (Cube.rotate ax c theta) = map (mdot (rotation_about ax theta)) (corners c).
Proof. rewrite rotate_eq. unfold corners. simpl. rewrite map_app. reflexivity. Qed.

Lemma corners_bounded_rotate (ax : axis) (c : Cube.t) (theta : R) :
  corners_bounded c -> corners_bounded (Cube.rotate ax c theta).
Proof.
  intros Hc p Hp. rewrite corners_rotate in Hp.
  apply in_map_iff in Hp. destruct Hp as [p0 [<- Hp0]].
  rewrite rotation_inner. apply Hc. assumption.
Qed.

Lemma corners_bounded_run (keys : list Z) (i j k : ix) :
  corners_bounded (get3 (run_keys keys rubik_cube) i j k).
Proof.
  revert i j k.
  apply (run_keys_invariant (fun g => forall i j k, corners_bounded (get3 g i j k))).
  - intros ax idx cw g Hg. apply twist_cells; [apply corners_bounded_rotate | assumption].
  - intros i j k. rewrite rubik_cube_cell. apply corners_bounded_init.
Qed.

Lemma denominator_large (a : Artist.t) (p : vec) :
  camera_ok a -> inner p p <= 27 / 4 -> 3 < denominator a p.
Proof.
  intros (_ & _ & Hzz & _ & _ & _ & _ & Hp) Hb.
  unfold denominator. rewrite inner_vsub_r, Hp, inner_vscale_r, Hzz.
  pose proof (cauchy_schwarz (Artist.camera_z a) p) as H.
  rewrite Hzz in H. unfold DISTANCE_TO_CAMERA.
  set (e := inner (Artist.camera_z a) p) in *. nra.
Qed.

(** X9.  The projection never degenerates on what the program draws: for
    every corner of every cube of the assembly, after any sequence of key
    events, and for every proper camera (so for every camera a drag or a
    reset sets) the denominator [forward . (point - position)] is larger
    than 3: all corners stay within 1.5 * sqrt 3 of the origin and the
    camera stays 6 away.  The division of [Artist.project3d] is safe there
    and the test of the first [project3d] would not fire. *)
Theorem drawn_points_are_in_front
  (keys : list Z) (i j k : ix) (a : Artist.t) (p : vec) :
  camera_ok a ->
  In p (corners (get3 (run_keys keys rubik_cube) i j k)) ->
  inner p p <= 27 / 4 /\
  3 < denominator a p /\
  ~ Rabs (denominator a p) < 1e-6.
Proof.
  intros Hok Hp.
  pose proof (corners_bounded_run keys i j k p Hp) as Hb.
  pose proof (denominator_large a p Hok Hb) as Hd.
  split; [exact Hb | split; [exact Hd |]].
  rewrite Rabs_pos_eq; lra.
Qed.

Lemma drawn_points_are_in_front_witness :
  let a := Artist.init (Build_Screen 80 24) in
  let p := V3 (-1 / 2 + -1) (1 / 2 + 1) (1 / 2 + 1) in
  inner p p <= 27 / 4 /\ 3 < denominator a p /\ ~ Rabs (denominator a p) < 1e-6.
Proof.
  intros a p.
  apply (drawn_points_are_in_front [] i0 i0 i0 a p).
  - apply camera_ok_reset.
  - left. reflexivity.
Defined.

(** ** The two versions of the projection *)

Lemma legacy_project3d_cases (a : Artist.t) (p : vec) :
  let r := Legacy.project3d p (Artist.camera_position a) (Artist.camera_x a)
                            (Artist.camera_y a) (Artist.camera_z a) in
  (Rabs (denominator a p) < 1e-6 /\ r = None) \/
  (~ Rabs (denominator a p) < 1e-6 /\
   exists x y, r = Some (x, y) /\
               Artist.project3d a p = (Artist.cx a * (1 + x), Artist.cy a * (1 - y))).
Proof.
  unfold Legacy.project3d, denominator, Artist.project3d.
  destruct (Rlt_dec _ _) as [H | H].
  - left. split; [assumption | reflexivity].
  - right. split; [assumption |]. eexists _, _. split; reflexivity.
Qed.

(** X10.  The first [project3d] and [Artist.project3d] compute the same
    point: the first returns [None] exactly when the denominator is below
    1e-6 in absolute value, and when it returns [(x, y)] the method returns
    [(cx * (1 + x), cy * (1 - y))].  The callers differ: what the first
    [Artist.line] draws is what the method draws, mirrored in the
    horizontal line through the centre of the screen ([y] against
    [2 * cy - y]). *)
Theorem projections_agree (a : Artist.t) (p q : vec) :
  let first pt := Legacy.project3d pt (Artist.camera_position a) (Artist.camera_x a)
                                   (Artist.camera_y a) (Artist.camera_z a) in
  (first p = None <-> Rabs (denominator a p) < 1e-6) /\
  (forall x y, first p = Some (x, y) ->
               Artist.project3d a p = (Artist.cx a * (1 + x), Artist.cy a * (1 - y))) /\
  (Legacy.line (legacy_of a) p q = None <-> first p = None \/ first q = None) /\
  (forall calls,
      Legacy.line (legacy_of a) p q = Some calls ->
      exists x1 y1 x2 y2,
        calls = [move x1 y1; draw x2 y2] /\
        Artist.line a p q = [move x1 (2 * Artist.cy a - y1); draw x2 (2 * Artist.cy a - y2)]).
Proof.
  intros first.
  split.
  { destruct (legacy_project3d_cases a p) as [[H E] | [H (x & y & E & _)]];
      fold (first p) in E; rewrite E; split; intros H'; try assumption;
      try reflexivity; try discriminate; contradiction. }
  split.
  { intros x y E.
    destruct (legacy_project3d_cases a p) as [[_ E'] | [_ (x' & y' & E' & Hp)]];
      fold (first p) in E'; rewrite E' in E; [discriminate |].
    inversion E; subst. exact Hp. }
  assert (L : Legacy.line (legacy_of a) p q
              = match first p with
                | None => None
                | Some (x, y) =>
                    match first q with
                    | None => None
                    | Some (x', y') =>
                        Some [move (Artist.cx a * (1 + x)) (Artist.cy a * (1 + y));
                              draw (Artist.cx a * (1 + x')) (Artist.cy a * (1 + y'))]
                    end
                end) by reflexivity.
  split.
  { rewrite L. destruct (first p) as [[x y] |]; [destruct (first q) as [[x' y'] |] |].
    - split; [discriminate | intros [H | H]; discriminate].
    - split; auto.
    - split; auto. }
  intros calls Hc. rewrite L in Hc.
  destruct (legacy_project3d_cases a p) as [[_ Ep] | [_ (x & y & Ep & Hp)]];
    fold (first p) in Ep; rewrite Ep in Hc; [discriminate |].
  destruct (legacy_project3d_cases a q) as [[_ Eq] | [_ (x' & y' & Eq & Hq)]];
    fold (first q) in Eq; rewrite Eq in Hc; [discriminate |].
  inversion Hc; subst calls.
  eexists _, _, _, _. split; [reflexivity |].
  unfold Artist.line. rewrite Hp, Hq. simpl. f_equal; [| f_equal]; f_equal; ring.
Qed.

Lemma projections_agree_witness :
  let a := Artist.mk (Build_Screen 80 24) 24 80 40 12
                     (V3 0 0 6) (V3 1 0 0) (V3 0 1 0) (V3 0 0 (-1)) in
  exists x y,
    Artist.project3d a (V3 0 0 0) = (Artist.cx a * (1 + x), Artist.cy a * (1 - y)).
Proof.
  intros a. eexists _, _.
  apply (proj1 (proj2 (projections_agree a (V3 0 0 0) (V3 0 0 0)))).
  unfold Legacy.project3d.
  destruct (Rlt_dec _ _) as [H | _]; [| reflexivity].
  exfalso. unfold inner in H. simpl in H.
  rewrite Rabs_pos_eq in H; lra.
Defined.

(** ** Sorting *)

Lemma insert_desc_perm {A : Type} (x : A * R) (s : list (A * R)) :
  Permutation (insert_desc x s) (x :: s).
Proof.
  induction s as [| y s IH]; simpl.
  - apply Permutation_refl.
  - destruct (Rlt_dec (snd x) (snd y)).
    + apply perm_trans with (y :: x :: s).
      * apply perm_skip. exact IH.
      * apply perm_swap.
    + apply Permutation_refl.
Qed.

Lemma sorted_reverse_perm {A : Type} (l : list (A * R)) :
  Permutation (sorted_reverse l) l.
Proof.
  induction l as [| x l IH]; simpl.
  - apply perm_nil.
  - apply perm_trans with (x :: sorted_reverse l).
    + apply insert_desc_perm.
    + apply perm_skip. exact IH.
Qed.

Lemma insert_desc_sorted {A : Type} (x : A * R) (s : list (A * R)) :
  StronglySorted key_desc s -> StronglySorted key_desc (insert_desc x s).
Proof.
  induction s as [| y s IH]; intros Hs; simpl.
  - constructor; constructor.
  - inversion Hs as [| ? ? Hs' Hy]; subst.
    destruct (Rlt_dec (snd x) (snd y)) as [Hlt | Hge].
    + constructor; [apply IH; assumption |].
      apply Forall_forall. intros z Hz. apply insert_desc_In in Hz.
      destruct Hz as [-> | Hz].
      * unfold key_desc. lra.
      * rewrite Forall_forall in Hy. apply Hy. assumption.
    + constructor; [assumption |].
      constructor; [unfold key_desc; lra |].
      rewrite Forall_forall in Hy |- *. intros z Hz.
      specialize (Hy z Hz). unfold key_desc in *. lra.
Qed.

Lemma sorted_reverse_sorted {A : Type} (l : list (A * R)) :
  StronglySorted key_desc (sorted_reverse l).
Proof.
  induction l as [| x l IH]; simpl.
  - constructor.
  - apply insert_desc_sorted. exact IH.
Qed.

Lemma sorted_by_reverse_perm {A : Type} (key : A -> R) (l : list A) :
  Permutation (sorted_by_reverse key l) l.
Proof.
  unfold sorted_by_reverse.
  apply perm_trans with (map fst (map (fun x => (x, key x)) l)).
  - apply Permutation_map. apply sorted_reverse_perm.
  - rewrite map_map. simpl. rewrite map_id. apply Permutation_refl.
Qed.

Lemma sorted_by_reverse_sorted {A : Type} (key : A -> R) (l : list A) :
  StronglySorted (fun x y => key y <= key x) (sorted_by_reverse key l).
Proof.
  unfold sorted_by_reverse.
  assert (Hk : forall p, In p (sorted_reverse (map (fun x => (x, key x)) l)) ->
                         snd p = key (fst p)).
  { intros p Hp. apply sorted_reverse_In in Hp. apply in_map_iff in Hp.
    destruct Hp as [x [<- _]]. reflexivity. }
  pose proof (sorted_reverse_sorted (map (fun x => (x, key x)) l)) as Hs.
  induction Hs as [| p s Hs IH Hp]; simpl.
  - constructor.
  - constructor.
    + apply IH. intros q Hq. apply Hk. right. assumption.
    + apply Forall_forall. intros y Hy. apply in_map_iff in Hy.
      destruct Hy as [q [<- Hq]].
      rewrite Forall_forall in Hp. specialize (Hp q Hq). unfold key_desc in Hp.
      rewrite <- (Hk p) by (left; reflexivity).
      rewrite <- (Hk q) by (right; assumption). assumption.
Qed.

(** X11.  [sorted(..., reverse=True)] as the code uses it returns a
    rearrangement of its input in which no entry has a larger key than an
    entry before it.  So every pass draws each of the 27 cubes exactly
    once, and never a cube before one that is farther from the camera. *)
Theorem cubes_are_drawn_back_to_front (artist : Artist.t) (g : grid) :
  (forall (A : Type) (l : list (A * R)),
      Permutation (sorted_reverse l) l /\ StronglySorted key_desc (sorted_reverse l)) /\
  Permutation (drawing_order artist g) (flatten3 g) /\
  List.length (drawing_order artist g) = 27%nat /\
  StronglySorted (farther_first artist) (drawing_order artist g).
Proof.
  split.
  { intros A l. split; [apply sorted_reverse_perm | apply sorted_reverse_sorted]. }
  split; [apply sorted_by_reverse_perm |].
  split.
  - unfold drawing_order.
    rewrite (Permutation_length (sorted_by_reverse_perm _ _)). reflexivity.
  - apply sorted_by_reverse_sorted.
Qed.

(** ** Invariants of the cubes of the assembly *)

Lemma twist_cells_quarter (P : Cube.t -> Prop) :
  (forall ax cw c, P c -> P (Cube.rotate ax c (IZR (direction_of cw) * PI / 2))) ->
  forall ax idx cw g,
    (forall i j k, P (get3 g i j k)) ->
    forall i j k, P (get3 (twist ax idx cw g) i j k).
Proof.
  intros Hrot ax idx cw g Hg i j k. rewrite twist_cell.
  destruct (in_layer ax idx i j k); [| apply Hg].
  apply Hrot. destruct (source_cell ax cw i j k) as [[a b] c]. apply Hg.
Qed.

(** A property that every new cube has and every quarter turn about an
    axis preserves holds for every cube of the assembly after every
    sequence of key events. *)
Lemma cell_invariant (P : Cube.t -> Prop) :
  (forall position, P (Cube.init position)) ->
  (forall ax cw c, P c -> P (Cube.rotate ax c (IZR (direction_of cw) * PI / 2))) ->
  forall keys i j k, P (get3 (run_keys keys rubik_cube) i j k).
Proof.
  intros Hinit Hrot keys.
  apply (run_keys_invariant (fun g => forall i j k, P (get3 g i j k))).
  - intros ax idx cw g Hg. apply twist_cells_quarter; assumption.
  - intros i j k. rewrite rubik_cube_cell. apply Hinit.
Qed.

Lemma four_corners_run (keys : list Z) (i j k : ix) :
  four_corners (get3 (run_keys keys rubik_cube) i j k).
Proof.
  apply cell_invariant.
  - intros position. split; reflexivity.
  - intros ax cw c [Hf Hb]. rewrite rotate_eq. unfold four_corners. simpl.
    rewrite !length_map. split; assumption.
Qed.

Lemma normal_pairs_run (keys : list Z) (i j k : ix) :
  normal_pairs (get3 (run_keys keys rubik_cube) i j k).
Proof.
  apply cell_invariant.
  - intros position. exists (V3 0 0 1), (V3 (-1) 0 0), (V3 0 1 0).
    unfold vneg. simpl.
    repeat (f_equal; try (apply vec_eq; lra)).
  - intros ax cw c (f & l & t & H). rewrite rotate_eq.
    exists (mdot (rotation_about ax (IZR (direction_of cw) * PI / 2)) f),
           (mdot (rotation_about ax (IZR (direction_of cw) * PI / 2)) l),
           (mdot (rotation_about ax (IZR (direction_of cw) * PI / 2)) t).
    simpl. rewrite H. unfold dict_map. simpl. rewrite !mdot_vneg. reflexivity.
Qed.

Ltac preimage d Hc :=
  solve [ destruct (Hc d ltac:(simpl; auto 10)) as [face Hf];
          exists face; apply in_map_iff; exists (face, d);
          split; [cbn [fst snd]; f_equal;
                  rewrite mdot_quarter by apply direction_of_cases;
                  unfold quarter; simpl; apply vec_eq; lra
                 | assumption] ].

Lemma covers_run (keys : list Z) (i j k : ix) :
  covers (get3 (run_keys keys rubik_cube) i j k).
Proof.
  apply cell_invariant.
  - intros position d Hd. simpl in Hd.
    repeat match goal with
           | H : _ \/ _ |- _ => destruct H as [H | H]
           | H : False |- _ => destruct H
           end; subst d; eexists; simpl; eauto 10.
  - intros ax cw c Hc d Hd. rewrite rotate_eq. simpl Cube.normal_vectors.
    unfold dict_map. simpl in Hd.
    repeat match goal with
           | H : _ \/ _ |- _ => destruct H as [H | H]
           | H : False |- _ => destruct H
           end; subst d; destruct ax, cw;
      first [ preimage (V3 1 0 0) Hc | preimage (V3 (-1) 0 0) Hc
            | preimage (V3 0 1 0) Hc | preimage (V3 0 (-1) 0) Hc
            | preimage (V3 0 0 1) Hc | preimage (V3 0 0 (-1)) Hc ].
Qed.

(** ** Filling the faces *)

Lemma length4 {A : Type} (l : list A) :
  List.length l = 4%nat -> exists a b c d, l = [a; b; c; d].
Proof.
  destruct l as [| a [| b [| c [| d [| e l]]]]]; simpl; intros H; try discriminate.
  exists a, b, c, d. reflexivity.
Qed.

(** [draw_block_faces] on a cube with four and four corners, paired
    normals and the colour table. *)
Lemma draw_block_faces_eval (c : Cube.t) (a : Artist.t)
  (f l t f1 f2 f3 f4 b1 b2 b3 b4 : vec) :
  Cube.front c = [f1; f2; f3; f4] ->
  Cube.back c = [b1; b2; b3; b4] ->
  Cube.normal_vectors c
  = [("front", f); ("back", vneg f); ("left", l); ("right", vneg l);
     ("top", t); ("bottom", vneg t)]%string ->
  Cube.colours c = colour_table ->
  draw_block_faces c a
  = Some (visible_fill a f [f1; f2; f3; f4] COLOUR_RED
          ++ visible_fill a (vneg f) [b4; b3; b2; b1] COLOUR_MAGENTA
          ++ visible_fill a l [f1; b1; b4; f4] COLOUR_YELLOW
          ++ visible_fill a (vneg l) [f2; f3; b3; b2] COLOUR_WHITE
          ++ visible_fill a t [f1; f2; b2; b1] COLOUR_GREEN
          ++ visible_fill a (vneg t) [f3; f4; b4; b3] COLOUR_BLUE).
Proof.
  intros Hf Hb Hn Hc.
  unfold draw_block_faces, fill_face, face_corners, visible_fill.
  rewrite Hf, Hb, Hn, Hc. simpl.
  repeat destruct (Rgt_dec _ _); reflexivity.
Qed.

Lemma some_face_visible (cam f l t : vec) (nv : dict vec) :
  cam <> V3 0 0 0 ->
  nv = [("front", f); ("back", vneg f); ("left", l); ("right", vneg l);
        ("top", t); ("bottom", vneg t)]%string ->
  (forall d, In d axis_vectors -> exists face, In (face, d) nv) ->
  inner cam f <> 0 \/ inner cam l <> 0 \/ inner cam t <> 0.
Proof.
  intros Hne Hnv Hc.
  destruct (Req_dec_T (inner cam f) 0) as [Ef | Nf]; [| auto].
  destruct (Req_dec_T (inner cam l) 0) as [El | Nl]; [| auto].
  destruct (Req_dec_T (inner cam t) 0) as [Et | Nt]; [| auto].
  exfalso. apply Hne.
  assert (Hz : forall d, In d axis_vectors -> inner cam d = 0).
  { intros d Hd. destruct (Hc d Hd) as [face Hface]. rewrite Hnv in Hface.
    simpl in Hface.
    repeat match goal with
           | H : _ \/ _ |- _ => destruct H as [H | H]
           | H : False |- _ => destruct H
           | H : (_, _) = (_, _) |- _ => inversion H; subst; clear H
           end; rewrite ?inner_vneg_r; lra. }
  pose proof (Hz (V3 1 0 0) ltac:(simpl; auto 10)) as Hx.
  pose proof (Hz (V3 0 1 0) ltac:(simpl; auto 10)) as Hy.
  pose proof (Hz (V3 0 0 1) ltac:(simpl; auto 10)) as Hzz.
  destruct cam as [x y z]. unfold inner in Hx, Hy, Hzz. simpl in Hx, Hy, Hzz.
  apply vec_eq; lra.
Qed.

Lemma visible_fill_length (a : Artist.t) (n : vec) (quad : list vec) (col : Colour) :
  (List.length (visible_fill a n quad col) <= 1)%nat.
Proof. unfold visible_fill. destruct (Rgt_dec _ _); simpl; lia. Qed.

Lemma opposite_not_both (a : Artist.t) (n : vec) (q q' : list vec) (col col' : Colour) :
  (List.length (visible_fill a n q col) + List.length (visible_fill a (vneg n) q' col')
   <= 1)%nat.
Proof.
  unfold visible_fill. rewrite inner_vneg_r.
  destruct (Rgt_dec _ _), (Rgt_dec _ _); simpl; try lia. exfalso; lra.
Qed.

Lemma block_faces_total (keys : list Z) (i j k : ix) (a : Artist.t) :
  exists fills,
    draw_block_faces (get3 (run_keys keys rubik_cube) i j k) a = Some fills /\
    (List.length fills <= 3)%nat.
Proof.
  set (c := get3 (run_keys keys rubik_cube) i j k).
  destruct (four_corners_run keys i j k) as [Hf Hb]. fold c in Hf, Hb.
  destruct (length4 _ Hf) as (f1 & f2 & f3 & f4 & Ef).
  destruct (length4 _ Hb) as (b1 & b2 & b3 & b4 & Eb).
  destruct (normal_pairs_run keys i j k) as (f & l & t & En). fold c in En.
  pose proof (colours_of_assembly keys i j k) as Ec. fold c in Ec.
  eexists. split; [apply (draw_block_faces_eval c a f l t f1 f2 f3 f4 b1 b2 b3 b4);
                   assumption |].
  rewrite !length_app.
  pose proof (opposite_not_both a f [f1; f2; f3; f4] [b4; b3; b2; b1]
                                COLOUR_RED COLOUR_MAGENTA).
  pose proof (opposite_not_both a l [f1; b1; b4; f4] [f2; f3; b3; b2]
                                COLOUR_YELLOW COLOUR_WHITE).
  pose proof (opposite_not_both a t [f1; f2; b2; b1] [f3; f4; b4; b3]
                                COLOUR_GREEN COLOUR_BLUE).
  lia.
Qed.

(** X12.  [draw_block_faces] on a cube of the assembly, after any sequence
    of key events and for any camera: it does not raise; it fills at most
    three faces, each as one polygon of four screen points; no colour is
    filled twice and never the colours of two opposite faces; and unless
    the camera position is the origin it fills at least one face. *)
Theorem block_faces_are_filled (keys : list Z) (i j k : ix) (a : Artist.t) :
  exists fills,
    draw_block_faces (get3 (run_keys keys rubik_cube) i j k) a = Some fills /\
    (List.length fills <= 3)%nat /\
    NoDup (map fill_colour fills) /\
    Forall (fun call => exists quad,
                fill_polygons call = [quad] /\ List.length quad = 4%nat) fills /\
    (forall x y, In x fills -> In y fills ->
                 fill_colour y <> opposite_colour (fill_colour x)) /\
    (Artist.camera_position a <> V3 0 0 0 -> fills <> []).
Proof.
  set (c := get3 (run_keys keys rubik_cube) i j k).
  destruct (four_corners_run keys i j k) as [Hf Hb]. fold c in Hf, Hb.
  destruct (length4 _ Hf) as (f1 & f2 & f3 & f4 & Ef).
  destruct (length4 _ Hb) as (b1 & b2 & b3 & b4 & Eb).
  destruct (normal_pairs_run keys i j k) as (f & l & t & En). fold c in En.
  pose proof (colours_of_assembly keys i j k) as Ec. fold c in Ec.
  pose proof (covers_run keys i j k) as Hcov. fold c in Hcov.
  eexists. split; [apply (draw_block_faces_eval c a f l t f1 f2 f3 f4 b1 b2 b3 b4);
                   assumption |].
  assert (Hvis : Artist.camera_position a <> V3 0 0 0 ->
                 inner (Artist.camera_position a) f <> 0 \/
                 inner (Artist.camera_position a) l <> 0 \/
                 inner (Artist.camera_position a) t <> 0).
  { intros Hne. apply (some_face_visible _ f l t (Cube.normal_vectors c)); assumption. }
  clear Hcov. unfold visible_fill. rewrite !inner_vneg_r.
  set (u := inner (Artist.camera_position a) f) in *.
  set (v := inner (Artist.camera_position a) l) in *.
  set (w := inner (Artist.camera_position a) t) in *.
  destruct (Rgt_dec u 0), (Rgt_dec (- u) 0), (Rgt_dec v 0), (Rgt_dec (- v) 0),
           (Rgt_dec w 0), (Rgt_dec (- w) 0); try (exfalso; lra);
    (split; [simpl; lia |]);
    (split; [simpl; repeat constructor; simpl; intuition discriminate |]);
    (split; [repeat constructor; eexists; split; reflexivity |]);
    (split; [ intros x y Hx Hy; simpl in Hx, Hy;
              repeat match goal with
                     | H : _ \/ _ |- _ => destruct H as [H | H]
                     | H : False |- _ => destruct H
                     end; subst; simpl; discriminate
            | intros Hne; specialize (Hvis Hne);
              first [ discriminate | exfalso; lra ] ]).
Qed.

(** ** The filled quads are the faces *)

Lemma dict_get_map {A B : Type} (f : A -> B) (d : dict A) (k : string) :
  dict_get (dict_map f d) k = option_map f (dict_get d k).
Proof.
  induction d as [| [k' a] d IH]; simpl; [reflexivity |].
  destruct (String.eqb k k'); [reflexivity | exact IH].
Qed.

Lemma corners4_map (f : vec -> vec) (l1 l2 l3 l4 : list vec) (n1 n2 n3 n4 : nat) :
  corners4 (nth_error (map f l1) n1) (nth_error (map f l2) n2)
           (nth_error (map f l3) n3) (nth_error (map f l4) n4)
  = option_map (map f)
      (corners4 (nth_error l1 n1) (nth_error l2 n2) (nth_error l3 n3) (nth_error l4 n4)).
Proof.
  rewrite !nth_error_map. unfold corners4.
  destruct (nth_error l1 n1), (nth_error l2 n2), (nth_error l3 n3), (nth_error l4 n4);
    reflexivity.
Qed.

Lemma face_corners_rotate (M : mat) (c : Cube.t) (face : string) :
  face_corners (Cube.rotation_update M c) face
  = option_map (map (mdot M)) (face_corners c face).
Proof.
  unfold face_corners. simpl Cube.front. simpl Cube.back.
  repeat match goal with
         | |- context [String.eqb face ?s] => destruct (String.eqb face s)
         end;
    rewrite ?corners4_map; try reflexivity.
  simpl. rewrite map_rev. reflexivity.
Qed.

Lemma on_face_planes_init (position : vec) : on_face_planes (Cube.init position).
Proof.
  intros face quad n p Hq Hn Hp.
  unfold face_corners in Hq. simpl in Hq, Hn.
  repeat match type of Hn with
         | context [String.eqb face ?s] =>
             destruct (String.eqb face s);
             [ inversion Hq; subst quad; inversion Hn; subst n; clear Hq Hn;
               simpl in Hp;
               repeat match goal with
                      | H : _ \/ _ |- _ => destruct H as [H | H]
                      | H : False |- _ => destruct H
                      end; subst p;
               destruct position as [x y z];
               unfold inner, vsub, vadd, vdiv; simpl; lra
             | ]
         end.
  discriminate.
Qed.

Lemma on_face_planes_rotate (ax : axis) (c : Cube.t) (theta : R) :
  on_face_planes c -> on_face_planes (Cube.rotate ax c theta).
Proof.
  intros Hc face quad n p Hq Hn Hp. rewrite rotate_eq in *.
  rewrite face_corners_rotate in Hq. simpl in Hn. rewrite dict_get_map in Hn.
  destruct (face_corners c face) as [quad0 |] eqn:Eq; [| discriminate].
  destruct (dict_get (Cube.normal_vectors c) face) as [n0 |] eqn:En; [| discriminate].
  simpl in Hq, Hn. inversion Hq; subst quad. inversion Hn; subst n.
  apply in_map_iff in Hp. destruct Hp as [p0 [<- Hp0]].
  simpl Cube.position. rewrite <- mdot_vsub, rotation_inner.
  apply (Hc face quad0 n0 p0); assumption.
Qed.

Lemma on_face_planes_run (keys : list Z) (i j k : ix) :
  on_face_planes (get3 (run_keys keys rubik_cube) i j k).
Proof.
  apply cell_invariant.
  - apply on_face_planes_init.
  - intros ax cw c. apply on_face_planes_rotate.
Qed.

(** X13.  The polygon filled in the colour of a label is the face that now
    points where the normal of that label points: for every cube of the
    assembly, after any sequence of key events, and every label, the four
    corners [draw_block_faces] takes for it are corners of the cube and lie
    half a unit from its centre along the normal stored under the label. *)
Theorem filled_quads_are_the_faces (keys : list Z) (i j k : ix) (face : string) :
  In face face_labels ->
  let c := get3 (run_keys keys rubik_cube) i j k in
  exists quad n,
    face_corners c face = Some quad /\
    dict_get (Cube.normal_vectors c) face = Some n /\
    List.length quad = 4%nat /\
    forall p, In p quad ->
              In p (corners c) /\ inner (vsub p (Cube.position c)) n = 1 / 2.
Proof.
  intros Hface c.
  destruct (four_corners_run keys i j k) as [Hf Hb]. fold c in Hf, Hb.
  destruct (length4 _ Hf) as (f1 & f2 & f3 & f4 & Ef).
  destruct (length4 _ Hb) as (b1 & b2 & b3 & b4 & Eb).
  destruct (normal_pairs_run keys i j k) as (f & l & t & En). fold c in En.
  pose proof (on_face_planes_run keys i j k) as Hpl. fold c in Hpl.
  unfold on_face_planes in Hpl.
  unfold face_labels in Hface. simpl in Hface.
  repeat match goal with
         | H : _ \/ _ |- _ => destruct H as [H | H]
         | H : False |- _ => destruct H
         end; subst face;
    match goal with
    | |- exists quad n, face_corners c ?F = _ /\ _ =>
        eexists _, _;
        split; [unfold face_corners; rewrite Ef, Eb; reflexivity |];
        split; [rewrite En; reflexivity |];
        split; [reflexivity |];
        intros p Hp; split;
        [ unfold corners; rewrite Ef, Eb; simpl in Hp |- *; tauto
        | eapply (Hpl F); [unfold face_corners; rewrite Ef, Eb; reflexivity
                          | rewrite En; reflexivity | exact Hp] ]
    end.
Qed.

Lemma filled_quads_are_the_faces_witness :
  let c := get3 (run_keys [] rubik_cube) i0 i0 i0 in
  exists quad n,
    face_corners c "top" = Some quad /\
    dict_get (Cube.normal_vectors c) "top" = Some n /\
    List.length quad = 4%nat /\
    forall p, In p quad ->
              In p (corners c) /\ inner (vsub p (Cube.position c)) n = 1 / 2.
Proof.
  apply (filled_quads_are_the_faces [] i0 i0 i0 "top"%string).
  simpl. auto 10.
Defined.

(** ** Cubes stay rigid *)

Lemma dist2_rotation (ax : axis) (theta : R) (p q : vec) :
  dist2 (mdot (rotation_about ax theta) p) (mdot (rotation_about ax theta) q) = dist2 p q.
Proof. unfold dist2. rewrite <- mdot_vsub. apply rotation_inner. Qed.

Lemma same_shape_init (position : vec) : same_shape (Cube.init position) unit_cube.
Proof.
  destruct position as [x y z].
  split; [reflexivity |]. split.
  - intros m n p q p0 q0 Hp Hq Hp0 Hq0.
    unfold corners, unit_cube in *. simpl in Hp, Hq, Hp0, Hq0.
    destruct m as [|[|[|[|[|[|[|[| m]]]]]]]]; simpl in Hp, Hp0;
      try discriminate; try (destruct m; discriminate);
      inversion Hp; inversion Hp0; subst; clear Hp Hp0;
      destruct n as [|[|[|[|[|[|[|[| n]]]]]]]]; simpl in Hq, Hq0;
      try discriminate; try (destruct n; discriminate);
      inversion Hq; inversion Hq0; subst;
      unfold dist2, inner, vsub, vadd, vdiv; simpl; field.
  - intros m p p0 Hp Hp0.
    unfold corners, unit_cube in *. simpl in Hp, Hp0.
    destruct m as [|[|[|[|[|[|[|[| m]]]]]]]]; simpl in Hp, Hp0;
      try discriminate; try (destruct m; discriminate);
      inversion Hp; inversion Hp0; subst;
      unfold dist2, inner, vsub, vadd, vdiv; simpl; field.
Qed.

Lemma same_shape_rotate (ax : axis) (c ref : Cube.t) (theta : R) :
  same_shape c ref -> same_shape (Cube.rotate ax c theta) ref.
Proof.
  intros (Hl & Hd & Hc). unfold same_shape. rewrite corners_rotate.
  split; [rewrite length_map; assumption |]. split.
  - intros m n p q p0 q0 Hp Hq Hp0 Hq0.
    rewrite nth_error_map in Hp, Hq.
    destruct (nth_error (corners c) m) as [p' |] eqn:Ep; [| discriminate].
    destruct (nth_error (corners c) n) as [q' |] eqn:Eq; [| discriminate].
    simpl in Hp, Hq. inversion Hp; inversion Hq; subst p q.
    rewrite dist2_rotation. eapply Hd; eassumption.
  - intros m p p0 Hp Hp0.
    rewrite nth_error_map in Hp.
    destruct (nth_error (corners c) m) as [p' |] eqn:Ep; [| discriminate].
    simpl in Hp. inversion Hp; subst p.
    rewrite rotate_eq. simpl Cube.position. rewrite dist2_rotation.
    eapply Hc; eassumption.
Qed.

Lemma same_shape_run (keys : list Z) (i j k : ix) :
  same_shape (get3 (run_keys keys rubik_cube) i j k) unit_cube.
Proof.
  apply (cell_invariant (fun c => same_shape c unit_cube)).
  - apply same_shape_init.
  - intros ax cw c. apply same_shape_rotate.
Qed.

Lemma nth_error_of_In {A : Type} (x : A) (l : list A) :
  In x l -> exists n, nth_error l n = Some x.
Proof. apply In_nth_error. Qed.

(** X14.  Twists move the cubes as rigid bodies.  After any sequence of key
    events every cube of the assembly still has eight corners, any two of
    them as far apart as the same two corners of the unit cube at the
    origin; each corner is sqrt(3)/2 from the centre of its cube (squared
    distance 3/4), and each of the twelve edges of the cage has length 1. *)
Theorem cubes_stay_rigid (keys : list Z) (i j k : ix) :
  let c := get3 (run_keys keys rubik_cube) i j k in
  same_shape c unit_cube /\
  List.length (corners c) = 8%nat /\
  (forall p, In p (corners c) -> dist2 p (Cube.position c) = 3 / 4) /\
  exists edges,
    cage_edges c = Some edges /\
    List.length edges = 12%nat /\
    forall e, In e edges ->
              In (fst e) (corners c) /\ In (snd e) (corners c) /\ dist2 (fst e) (snd e) = 1.
Proof.
  intros c.
  pose proof (same_shape_run keys i j k) as Hs. fold c in Hs.
  split; [exact Hs |].
  destruct Hs as (Hl & Hd & Hc).
  split; [rewrite Hl; reflexivity |].
  split.
  { intros p Hp. destruct (In_nth_error _ _ Hp) as [m Hm].
    assert (Hm0 : exists p0, nth_error (corners unit_cube) m = Some p0).
    { destruct (nth_error (corners unit_cube) m) as [p0 |] eqn:E; [eauto |].
      apply nth_error_None in E. rewrite <- Hl in E.
      assert (m < List.length (corners c))%nat
        by (apply nth_error_Some; rewrite Hm; discriminate).
      lia. }
    destruct Hm0 as [p0 Hp0]. rewrite (Hc m p p0 Hm Hp0).
    unfold corners, unit_cube in Hp0. simpl in Hp0.
    destruct m as [|[|[|[|[|[|[|[| m]]]]]]]]; simpl in Hp0;
      try discriminate; try (destruct m; discriminate);
      inversion Hp0; subst;
      unfold dist2, inner, vsub, vadd, vdiv; simpl; lra. }
  destruct (four_corners_run keys i j k) as [Hf Hb]. fold c in Hf, Hb.
  destruct (length4 _ Hf) as (f1 & f2 & f3 & f4 & Ef).
  destruct (length4 _ Hb) as (b1 & b2 & b3 & b4 & Eb).
  assert (Ecs : corners c = [f1; f2; f3; f4; b1; b2; b3; b4])
    by (unfold corners; rewrite Ef, Eb; reflexivity).
  eexists. split; [unfold cage_edges; rewrite Ef, Eb; reflexivity |].
  split; [reflexivity |].
  intros e He. rewrite Ecs. simpl in He.
  assert (D : forall m n p q p0 q0,
             nth_error [f1; f2; f3; f4; b1; b2; b3; b4] m = Some p ->
             nth_error [f1; f2; f3; f4; b1; b2; b3; b4] n = Some q ->
             nth_error (corners unit_cube) m = Some p0 ->
             nth_error (corners unit_cube) n = Some q0 ->
             dist2 p q = dist2 p0 q0)
    by (rewrite <- Ecs; exact Hd).
  repeat match goal with
         | H : _ \/ _ |- _ => destruct H as [H | H]
         | H : False |- _ => destruct H
         end; subst e; cbn [fst snd];
    (split; [simpl; tauto |]); (split; [simpl; tauto |]).
  - rewrite (D 0 1 _ _ _ _ eq_refl eq_refl eq_refl eq_refl)%nat.
    unfold dist2, inner, vsub, vadd, vdiv; simpl; lra.
  - rewrite (D 1 2 _ _ _ _ eq_refl eq_refl eq_refl eq_refl)%nat.
    unfold dist2, inner, vsub, vadd, vdiv; simpl; lra.
  - rewrite (D 2 3 _ _ _ _ eq_refl eq_refl eq_refl eq_refl)%nat.
    unfold dist2, inner, vsub, vadd, vdiv; simpl; lra.
  - rewrite (D 3 0 _ _ _ _ eq_refl eq_refl eq_refl eq_refl)%nat.
    unfold dist2, inner, vsub, vadd, vdiv; simpl; lra.
  - rewrite (D 4 5 _ _ _ _ eq_refl eq_refl eq_refl eq_refl)%nat.
    unfold dist2, inner, vsub, vadd, vdiv; simpl; lra.
  - rewrite (D 5 6 _ _ _ _ eq_refl eq_refl eq_refl eq_refl)%nat.
    unfold dist2, inner, vsub, vadd, vdiv; simpl; lra.
  - rewrite (D 6 7 _ _ _ _ eq_refl eq_refl eq_refl eq_refl)%nat.
    unfold dist2, inner, vsub, vadd, vdiv; simpl; lra.
  - rewrite (D 7 4 _ _ _ _ eq_refl eq_refl eq_refl eq_refl)%nat.
    unfold dist2, inner, vsub, vadd, vdiv; simpl; lra.
  - rewrite (D 0 4 _ _ _ _ eq_refl eq_refl eq_refl eq_refl)%nat.
    unfold dist2, inner, vsub, vadd, vdiv; simpl; lra.
  - rewrite (D 1 5 _ _ _ _ eq_refl eq_refl eq_refl eq_refl)%nat.
    unfold dist2, inner, vsub, vadd, vdiv; simpl; lra.
  - rewrite (D 2 6 _ _ _ _ eq_refl eq_refl eq_refl eq_refl)%nat.
    unfold dist2, inner, vsub, vadd, vdiv; simpl; lra.
  - rewrite (D 3 7 _ _ _ _ eq_refl eq_refl eq_refl eq_refl)%nat.
    unfold dist2, inner, vsub, vadd, vdiv; simpl; lra.
Qed.

(** ** The cage *)

Lemma draw_lines_length (a : Artist.t) (pairs : list (vec * vec)) :
  List.length (draw_lines a pairs) = (2 * List.length pairs)%nat.
Proof.
  unfold draw_lines. induction pairs as [| p pairs IH]; [reflexivity |].
  cbn [flat_map]. rewrite length_app, IH. unfold Artist.line. simpl. lia.
Qed.

Lemma draw_cage_cases (c : Cube.t) (a : Artist.t) :
  four_corners c ->
  (vx (Artist.camera_position a) <> 0 -> draw_cage c a = Some []) /\
  (vx (Artist.camera_position a) = 0 ->
   exists edges,
     cage_edges c = Some edges /\
     draw_cage c a = Some (draw_lines a edges) /\
     List.length (draw_lines a edges) = 24%nat).
Proof.
  intros [Hf Hb].
  destruct (length4 _ Hf) as (f1 & f2 & f3 & f4 & Ef).
  destruct (length4 _ Hb) as (b1 & b2 & b3 & b4 & Eb).
  unfold draw_cage, cage_edges. rewrite Ef, Eb.
  destruct (Req_dec_T (vx (Artist.camera_position a)) 0) as [E | N].
  - split; [intros H; contradiction |]. intros _.
    eexists. split; [reflexivity |]. split; reflexivity.
  - split; [reflexivity |]. intros H; contradiction.
Qed.

Lemma reset_camera_off_axis (a : Artist.t) :
  vx (Artist.camera_position (Artist.set_initial_camera a)) <> 0.
Proof.
  destruct (reset_frame a) as (_ & _ & _ & Hp). cbv zeta in Hp. rewrite Hp. simpl.
  pose proof (sqrt_lt_R0 3 ltac:(lra)). lra.
Qed.

Lemma drag_camera_on_axis (screen : Screen) (dy : Z) (a : Artist.t) :
  vx (Artist.camera_position (update_from_drag screen (0, dy)%Z a)) = 0.
Proof.
  unfold update_from_drag. simpl.
  replace (0 / IZR (width screen) * PI) with 0 by (unfold Rdiv; ring).
  vec_simpl. rewrite sin_0, cos_0. ring.
Qed.

(** X15.  [draw_cage] on a cube of the assembly, after any sequence of key
    events: it does not raise; it draws nothing unless the x coordinate of
    the camera position is exactly 0, and then it draws the twelve edges of
    the cube, 24 calls of [move] and [draw].  The camera of
    [set_initial_camera] has x = - 3 sqrt 3 / 2, so at start-up and after
    every reset no cage is drawn; the camera of a drag whose horizontal
    total is 0 has x = 0 and shows the cage. *)
Theorem cage_only_on_axis
  (keys : list Z) (i j k : ix) (a : Artist.t) (screen : Screen) (dy : Z) :
  let c := get3 (run_keys keys rubik_cube) i j k in
  (vx (Artist.camera_position a) <> 0 -> draw_cage c a = Some []) /\
  (vx (Artist.camera_position a) = 0 ->
   exists edges,
     cage_edges c = Some edges /\
     draw_cage c a = Some (draw_lines a edges) /\
     List.length (draw_lines a edges) = 24%nat) /\
  draw_cage c (Artist.set_initial_camera a) = Some [] /\
  draw_cage c (Artist.init screen) = Some [] /\
  (exists calls,
      draw_cage c (update_from_drag screen (0, dy)%Z a) = Some calls /\
      List.length calls = 24%nat).
Proof.
  intros c.
  pose proof (four_corners_run keys i j k) as H4. fold c in H4.
  split; [apply (draw_cage_cases c a H4) |].
  split; [apply (draw_cage_cases c a H4) |].
  split; [apply (draw_cage_cases c _ H4); apply reset_camera_off_axis |].
  split; [apply (draw_cage_cases c _ H4); apply reset_camera_off_axis |].
  destruct (proj2 (draw_cage_cases c (update_from_drag screen (0, dy)%Z a) H4)
                  (drag_camera_on_axis screen dy a)) as (edges & _ & Hd & Hl).
  eexists. split; eassumption.
Qed.

Lemma cage_only_on_axis_witness :
  let screen := Build_Screen 80 24 in
  let a := update_from_drag screen (0, 0)%Z (Artist.init screen) in
  exists edges,
    cage_edges (get3 (run_keys [] rubik_cube) i0 i0 i0) = Some edges /\
    draw_cage (get3 (run_keys [] rubik_cube) i0 i0 i0) a = Some (draw_lines a edges) /\
    List.length (draw_lines a edges) = 24%nat.
Proof.
  intros screen a.
  apply (proj1 (proj2 (cage_only_on_axis [] i0 i0 i0 a screen 0))).
  apply drag_camera_on_axis.
Defined.

(** ** A whole pass *)

Lemma flatten3_cells (g : grid) (c : Cube.t) :
  In c (flatten3 g) -> exists i j k, c = get3 g i j k.
Proof.
  unfold flatten3. intros H.
  apply in_flat_map in H. destruct H as [i [_ H]].
  apply in_flat_map in H. destruct H as [j [_ H]].
  apply in_map_iff in H. destruct H as [k [E _]].
  exists i, j, k. symmetry. exact E.
Qed.

Lemma draw_cubes_total (a : Artist.t) (cubes : list Cube.t) :
  (forall c, In c cubes ->
             four_corners c /\
             exists fills, draw_block_faces c a = Some fills /\
                           (List.length fills <= 3)%nat) ->
  exists calls,
    draw_cubes a cubes = Some calls /\
    (List.length (filled_of calls) <= 3 * List.length cubes)%nat /\
    (vx (Artist.camera_position a) <> 0 -> stroked_of calls = []) /\
    (vx (Artist.camera_position a) = 0 ->
     List.length (stroked_of calls) = (24 * List.length cubes)%nat).
Proof.
  induction cubes as [| c cubes IH]; intros H.
  - exists []. simpl. repeat split; auto.
  - destruct IH as (tail & Et & Ht & Hn & Hz).
    { intros c' Hc'. apply H. right. assumption. }
    destruct (H c (or_introl eq_refl)) as (H4 & fills & Ef & Hf).
    destruct (draw_cage_cases c a H4) as [Hoff Hon].
    assert (F : forall fs ls, filled_of (map Filled fs ++ map Stroked ls ++ tail)
                              = fs ++ filled_of tail).
    { intros fs ls. unfold filled_of. rewrite !flat_map_app. f_equal.
      - induction fs; simpl; [reflexivity | f_equal; assumption].
      - replace (flat_map _ (map Stroked ls)) with (@nil fill_call);
          [reflexivity |]. induction ls; simpl; auto. }
    assert (S : forall fs ls, stroked_of (map Filled fs ++ map Stroked ls ++ tail)
                              = ls ++ stroked_of tail).
    { intros fs ls. unfold stroked_of. rewrite !flat_map_app.
      replace (flat_map _ (map Filled fs)) with (@nil screen_call)
        by (induction fs; simpl; auto).
      simpl. f_equal. induction ls; simpl; [reflexivity | f_equal; assumption]. }
    destruct (Req_dec_T (vx (Artist.camera_position a)) 0) as [E | N].
    + destruct (Hon E) as (edges & _ & Ec & Hl).
      exists (map Filled fills ++ map Stroked (draw_lines a edges) ++ tail).
      simpl. rewrite Ef, Ec, Et. simpl.
      split; [reflexivity |]. rewrite F, S, !length_app.
      split; [lia |]. split; [intros; contradiction |].
      intros _. rewrite Hl, (Hz E). lia.
    + exists (map Filled fills ++ map Stroked [] ++ tail).
      split; [cbn [draw_cubes]; rewrite Ef; cbn [and_then]; rewrite (Hoff N);
              cbn [and_then]; rewrite Et; reflexivity |].
      rewrite F, S, !length_app. simpl.
      split; [lia |]. split; [intros _; apply (Hn N) | intros; contradiction].
Qed.

(** X16.  A whole drawing pass over the assembly, after any sequence of key
    events and for any camera, does not raise.  It fills at most 81
    polygons.  It draws no line at all unless the x coordinate of the
    camera position is exactly 0, and then 648 line calls, the cages of all
    27 cubes. *)
Theorem frame_is_drawn (keys : list Z) (a : Artist.t) :
  exists calls,
    draw_frame a (run_keys keys rubik_cube) = Some calls /\
    (List.length (filled_of calls) <= 81)%nat /\
    (vx (Artist.camera_position a) <> 0 -> stroked_of calls = []) /\
    (vx (Artist.camera_position a) = 0 -> List.length (stroked_of calls) = 648%nat).
Proof.
  set (g := run_keys keys rubik_cube).
  destruct (draw_cubes_total a (drawing_order a g)) as (calls & Ec & Hf & Hn & Hz).
  { intros c Hc.
    apply (Permutation_in _ (sorted_by_reverse_perm _ _)) in Hc.
    destruct (flatten3_cells g c Hc) as (i & j & k & ->).
    split; [apply four_corners_run |].
    destruct (block_faces_total keys i j k a) as (fills & Hs & Hl).
    exists fills. split; assumption. }
  assert (L : List.length (drawing_order a g) = 27%nat).
  { unfold drawing_order.
    rewrite (Permutation_length (sorted_by_reverse_perm _ _)). reflexivity. }
  rewrite L in Hf, Hz.
  exists calls. split; [exact Ec |]. split; [lia |]. split; [exact Hn |].
  intros E. rewrite (Hz E). reflexivity.
Qed.

(** ** Colours follow the normals *)

Lemma get_face_colour_rotate (ax : axis) (theta : R) (c : Cube.t) (d : vec) :
  Cube.get_face_colour (Cube.rotate ax c theta) (mdot (rotation_about ax theta) d)
  = Cube.get_face_colour c d.
Proof.
  rewrite rotate_eq. unfold Cube.get_face_colour. simpl.
  unfold dict_map. rewrite map_map. simpl.
  assert (E : map (fun x : string * vec =>
                     (fst x, inner (mdot (rotation_about ax theta) d)
                                   (mdot (rotation_about ax theta) (snd x))))
                  (Cube.normal_vectors c)
              = map (fun fn => (fst fn, inner d (snd fn))) (Cube.normal_vectors c)).
  { apply map_ext. intros [f n]. simpl. rewrite rotation_inner. reflexivity. }
  rewrite E. reflexivity.
Qed.

Lemma get_face_colour_unique_max (c : Cube.t) (d : vec) (face : string) (n : vec) :
  NoDup (map fst (Cube.normal_vectors c)) ->
  In (face, n) (Cube.normal_vectors c) ->
  (forall g m, In (g, m) (Cube.normal_vectors c) -> g <> face -> inner d m < inner d n) ->
  Cube.get_face_colour c d = dict_get (Cube.colours c) face.
Proof.
  intros Hnd Hin Hmax.
  destruct (in_split _ _ Hin) as (pre & post & E).
  rewrite E in Hnd. rewrite map_app in Hnd. simpl in Hnd.
  pose proof (NoDup_remove_2 _ _ _ Hnd) as Hnot.
  apply (get_face_colour_first_max c d pre post face n E).
  - intros f m Hf. apply (Hmax f m).
    + rewrite E. apply in_or_app. left. assumption.
    + intros ->. apply Hnot. apply in_or_app. left.
      apply (in_map fst) in Hf. exact Hf.
  - intros f m Hf. apply Rlt_le. apply (Hmax f m).
    + rewrite E. apply in_or_app. right. right. assumption.
    + intros ->. apply Hnot. apply in_or_app. right.
      apply (in_map fst) in Hf. exact Hf.
Qed.

Lemma gram_one (p q : string) : gram p q = 1 -> p = q.
Proof.
  unfold gram. destruct (String.eqb_spec p q) as [E | _]; [auto |].
  destruct (dict_get opposite_face p) as [o |]; [destruct (String.eqb q o) |];
    intros H; exfalso; lra.
Qed.

Lemma gram_le (p q : string) : p <> q -> gram p q <= 0.
Proof.
  unfold gram. destruct (String.eqb_spec p q) as [E | _]; [contradiction |].
  intros _. destruct (dict_get opposite_face p) as [o |]; [destruct (String.eqb q o) |];
    lra.
Qed.

(** On a cube whose normals form a frame, the face whose normal is exactly
    a unit direction wins the comparison. *)
Lemma get_face_colour_of_normal (c : Cube.t) (face : string) (d : vec) :
  frame_ok c -> In (face, d) (Cube.normal_vectors c) ->
  Cube.get_face_colour c d = dict_get (Cube.colours c) face.
Proof.
  intros [Hk Hg] Hin.
  apply (get_face_colour_unique_max c d face d).
  - rewrite Hk. unfold face_labels.
    repeat (constructor; [simpl; intuition discriminate |]). constructor.
  - assumption.
  - intros g m Hm Hne.
    rewrite (Hg face face d d Hin Hin), (Hg face g d m Hin Hm).
    assert (gram face face = 1)
      by (unfold gram; rewrite String.eqb_refl; reflexivity).
    pose proof (gram_le face g (fun E => Hne (eq_sym E))). lra.
Qed.

(** X17.  Which colour a cube shows in a direction moves with the cube:
    turning the cube and the direction by the same rotation does not change
    the answer of [get_face_colour].  On every cube of the assembly, after
    any sequence of key events, each of the six axis directions is the
    normal of exactly one face, and [get_face_colour] in that direction
    returns the colour the table gives that face. *)
Theorem colours_follow_normals
  (keys : list Z) (i j k : ix) (ax : axis) (theta : R) (c0 : Cube.t) (d0 d : vec) :
  Cube.get_face_colour (Cube.rotate ax c0 theta) (mdot (rotation_about ax theta) d0)
  = Cube.get_face_colour c0 d0 /\
  (In d axis_vectors ->
   let c := get3 (run_keys keys rubik_cube) i j k in
   exists face col,
     In (face, d) (Cube.normal_vectors c) /\
     (forall face', In (face', d) (Cube.normal_vectors c) -> face' = face) /\
     dict_get colour_table face = Some col /\
     Cube.get_face_colour c d = Some col).
Proof.
  split; [apply get_face_colour_rotate |].
  intros Hd c.
  destruct (covers_run keys i j k d Hd) as [face Hface]. fold c in Hface.
  pose proof (frame_ok_run keys i j k) as Hfr. fold c in Hfr.
  pose proof (colours_of_assembly keys i j k) as Hc. fold c in Hc.
  assert (Hl : In face face_labels).
  { destruct Hfr as [Hk _]. rewrite <- Hk. apply (in_map fst) in Hface. exact Hface. }
  destruct (colour_table_total face Hl) as [col Hcol].
  exists face, col.
  split; [exact Hface |].
  split.
  { intros face' Hf'. destruct Hfr as [_ Hg].
    pose proof (Hg face face d d Hface Hface) as H1.
    pose proof (Hg face face' d d Hface Hf') as H2.
    assert (gram face face = 1)
      by (unfold gram; rewrite String.eqb_refl; reflexivity).
    symmetry. apply gram_one. lra. }
  split; [exact Hcol |].
  rewrite (get_face_colour_of_normal c face d Hfr Hface), Hc. exact Hcol.
Qed.

Lemma colours_follow_normals_witness :
  let c := get3 (run_keys [] rubik_cube) i0 i0 i0 in
  exists face col,
    In (face, V3 0 1 0) (Cube.normal_vectors c) /\
    (forall face', In (face', V3 0 1 0) (Cube.normal_vectors c) -> face' = face) /\
    dict_get colour_table face = Some col /\
    Cube.get_face_colour c (V3 0 1 0) = Some col.
Proof.
  apply (proj2 (colours_follow_normals [] i0 i0 i0 axis_x 0 unit_cube (V3 0 1 0) (V3 0 1 0))).
  simpl. auto 10.
Defined.

(** ** The colour panels *)

Lemma layers_are_cells (g : grid) :
  top_layer g = map (get3c g) (panel_cells top_cell) /\
  front_layer g = map (get3c g) (panel_cells front_cell) /\
  bottom_layer g = map (get3c g) (panel_cells bottom_cell) /\
  rear_layer g = map (get3c g) (panel_cells rear_cell) /\
  left_layer g = map (get3c g) (panel_cells left_cell) /\
  right_layer g = map (get3c g) (panel_cells right_cell).
Proof.
  destruct g as [[[? ? ?] [? ? ?] [? ? ?]] [[? ? ?] [? ? ?] [? ? ?]] [[? ? ?] [? ? ?] [? ? ?]]].
  repeat split; reflexivity.
Qed.

Lemma panel_cells_nth (f : ix -> ix -> ix * ix * ix) (r c : ix) :
  nth_error (panel_cells f) (3 * ix_nat r + ix_nat c) = Some (f r c).
Proof. destruct r, c; reflexivity. Qed.

(** X18.  The panels are the unfolded cube.  After any sequence of key
    events, row [r] and column [c] of a panel shows the cube centred at:
    top (c-1, 1, r-1), front (c-1, 1-r, 1), bottom (c-1, -1, 1-r), rear
    (c-1, r-1, -1), left (-1, 1-r, c-1), right (1, 1-r, 1-c).  So each
    panel shows the nine cubes of its face, the top panel as seen from
    above with the front edge at the bottom, and each cube is asked for its
    colour in the outward direction of that face. *)
Theorem panels_are_the_unfolded_cube (keys : list Z) (r c : ix) :
  let g := run_keys keys rubik_cube in
  let n := (3 * ix_nat r + ix_nat c)%nat in
  let at_ (layer : list Cube.t) := option_map Cube.position (nth_error layer n) in
  at_ (top_layer g) = Some (V3 (coord c - 1) 1 (coord r - 1)) /\
  at_ (front_layer g) = Some (V3 (coord c - 1) (1 - coord r) 1) /\
  at_ (bottom_layer g) = Some (V3 (coord c - 1) (-1) (1 - coord r)) /\
  at_ (rear_layer g) = Some (V3 (coord c - 1) (coord r - 1) (-1)) /\
  at_ (left_layer g) = Some (V3 (-1) (1 - coord r) (coord c - 1)) /\
  at_ (right_layer g) = Some (V3 1 (1 - coord r) (1 - coord c)) /\
  map (fun p => snd (fst p)) (panels g)
  = [V3 0 1 0; V3 0 0 1; V3 0 (-1) 0; V3 0 0 (-1); V3 (-1) 0 0; V3 1 0 0].
Proof.
  intros g n at_.
  destruct (layers_are_cells g) as (Ht & Hf & Hb & Hr & Hl & Hrt).
  unfold at_, n.
  rewrite Ht, Hf, Hb, Hr, Hl, Hrt, !nth_error_map, !panel_cells_nth.
  unfold top_cell, front_cell, bottom_cell, rear_cell, left_cell, right_cell.
  cbn [option_map get3c]. unfold g. rewrite !labelled_run.
  repeat split; try reflexivity;
    destruct r, c; unfold lattice; simpl; f_equal; apply vec_eq; lra.
Qed.

Lemma all_of_spec {A B : Type} (f : A -> option B) (l : list A) (ys : list B) :
  all_of f l = Some ys -> map f l = map Some ys /\ List.length ys = List.length l.
Proof.
  revert ys. induction l as [| x l IH]; intros ys H; simpl in H.
  - inversion H. split; reflexivity.
  - destruct (f x) as [y |] eqn:E; [| discriminate]. simpl in H.
    destruct (all_of f l) as [ys' |]; [| discriminate]. simpl in H.
    inversion H; subst. destruct (IH ys' eq_refl) as [IH1 IH2].
    simpl. rewrite E, IH1, IH2. split; reflexivity.
Qed.

Lemma all_of_total {A B : Type} (f : A -> option B) (l : list A) :
  (forall x, In x l -> exists y, f x = Some y) -> exists ys, all_of f l = Some ys.
Proof.
  induction l as [| x l IH]; intros H; simpl.
  - exists []. reflexivity.
  - destruct (H x (or_introl eq_refl)) as [y Hy]. rewrite Hy. simpl.
    destruct IH as [ys Hys]; [intros x' Hx'; apply H; right; assumption |].
    rewrite Hys. simpl. exists (y :: ys). reflexivity.
Qed.

Lemma panel_colours_total (keys : list Z) (cells : list (ix * ix * ix)) (d : vec) :
  exists cols,
    all_of (fun cube => Cube.get_face_colour cube d)
           (map (get3c (run_keys keys rubik_cube)) cells) = Some cols.
Proof.
  apply all_of_total. intros x Hx. apply in_map_iff in Hx.
  destruct Hx as [[[i j] k] [<- _]]. simpl.
  apply get_face_colour_total; [apply frame_ok_run | apply colours_of_assembly].
Qed.

(** What [draw_panels] returns on the assembly. *)
Lemma draw_panels_eval (keys : list Z) (screen : Screen) :
  let g := run_keys keys rubik_cube in
  exists cT cF cD cB cL cR,
    all_of (fun cube => Cube.get_face_colour cube (V3 0 1 0)) (top_layer g) = Some cT /\
    all_of (fun cube => Cube.get_face_colour cube (V3 0 0 1)) (front_layer g) = Some cF /\
    all_of (fun cube => Cube.get_face_colour cube (V3 0 (-1) 0)) (bottom_layer g) = Some cD /\
    all_of (fun cube => Cube.get_face_colour cube (V3 0 0 (-1))) (rear_layer g) = Some cB /\
    all_of (fun cube => Cube.get_face_colour cube (V3 (-1) 0 0)) (left_layer g) = Some cL /\
    all_of (fun cube => Cube.get_face_colour cube (V3 1 0 0)) (right_layer g) = Some cR /\
    draw_panels screen (panels g)
    = Some (panel_calls screen "T" 6 12 cT ++ panel_calls screen "F" 6 9 cF
            ++ panel_calls screen "D" 6 6 cD ++ panel_calls screen "B" 6 3 cB
            ++ panel_calls screen "L" 9 9 cL ++ panel_calls screen "R" 3 9 cR ++ []).
Proof.
  intros g.
  destruct (layers_are_cells g) as (Ht & Hf & Hb & Hr & Hl & Hrt).
  destruct (panel_colours_total keys (panel_cells top_cell) (V3 0 1 0)) as [cT ET].
  destruct (panel_colours_total keys (panel_cells front_cell) (V3 0 0 1)) as [cF EF].
  destruct (panel_colours_total keys (panel_cells bottom_cell) (V3 0 (-1) 0)) as [cD ED].
  destruct (panel_colours_total keys (panel_cells rear_cell) (V3 0 0 (-1))) as [cB EB].
  destruct (panel_colours_total keys (panel_cells left_cell) (V3 (-1) 0 0)) as [cL EL].
  destruct (panel_colours_total keys (panel_cells right_cell) (V3 1 0 0)) as [cR ER].
  fold g in ET, EF, ED, EB, EL, ER.
  rewrite <- Ht in ET. rewrite <- Hf in EF. rewrite <- Hb in ED.
  rewrite <- Hr in EB. rewrite <- Hl in EL. rewrite <- Hrt in ER.
  exists cT, cF, cD, cB, cL, cR.
  repeat (split; [assumption |]).
  unfold panels. cbn [draw_panels draw_panel].
  rewrite ET, EF, ED, EB, EL, ER. reflexivity.
Qed.

Lemma length9 {A : Type} (l : list A) :
  List.length l = 9%nat -> exists a b c d e f g h i, l = [a; b; c; d; e; f; g; h; i].
Proof.
  destruct l as [| a [| b [| c [| d [| e [| f [| g [| h [| i [| j l]]]]]]]]]];
    simpl; intros H; try discriminate.
  exists a, b, c, d, e, f, g, h, i. reflexivity.
Qed.

Lemma layer_lengths (g : grid) :
  List.length (top_layer g) = 9%nat /\ List.length (front_layer g) = 9%nat /\
  List.length (bottom_layer g) = 9%nat /\ List.length (rear_layer g) = 9%nat /\
  List.length (left_layer g) = 9%nat /\ List.length (right_layer g) = 9%nat.
Proof.
  destruct (layers_are_cells g) as (Ht & Hf & Hb & Hr & Hl & Hrt).
  rewrite Ht, Hf, Hb, Hr, Hl, Hrt, !length_map. repeat split; reflexivity.
Qed.

Ltac not_in_positions :=
  simpl; intros H;
  repeat (destruct H as [H | H]; [apply pair_equal_spec in H; lia |]);
  exact H.

(** X19.  The six colour panels.  After any sequence of key events
    [draw_panels] does not raise: every cube answers with a colour.  It
    prints 54 characters, nine each of T, F, D, B, L, R, at 54 different
    screen cells, and on a screen at least 9 wide and 12 high all of them
    lie inside the screen. *)
Theorem panels_are_printed (keys : list Z) (screen : Screen) :
  exists calls,
    draw_panels screen (panels (run_keys keys rubik_cube)) = Some calls /\
    List.length calls = 54%nat /\
    map print_text calls
    = repeat "T"%string 9 ++ repeat "F"%string 9 ++ repeat "D"%string 9
      ++ repeat "B"%string 9 ++ repeat "L"%string 9 ++ repeat "R"%string 9 /\
    NoDup (map print_pos calls) /\
    ((9 <= width screen)%Z -> (12 <= height screen)%Z ->
     Forall (fun c => (0 <= print_x c < width screen)%Z /\
                      (0 <= print_y c < height screen)%Z) calls).
Proof.
  destruct (draw_panels_eval keys screen)
    as (cT & cF & cD & cB & cL & cR & ET & EF & ED & EB & EL & ER & E).
  destruct (layer_lengths (run_keys keys rubik_cube)) as (LT & LF & LD & LB & LL & LR).
  apply all_of_spec in ET, EF, ED, EB, EL, ER.
  destruct ET as [_ ET], EF as [_ EF], ED as [_ ED], EB as [_ EB], EL as [_ EL],
           ER as [_ ER].
  rewrite LT in ET. rewrite LF in EF. rewrite LD in ED.
  rewrite LB in EB. rewrite LL in EL. rewrite LR in ER.
  destruct (length9 _ ET) as (? & ? & ? & ? & ? & ? & ? & ? & ? & ->).
  destruct (length9 _ EF) as (? & ? & ? & ? & ? & ? & ? & ? & ? & ->).
  destruct (length9 _ ED) as (? & ? & ? & ? & ? & ? & ? & ? & ? & ->).
  destruct (length9 _ EB) as (? & ? & ? & ? & ? & ? & ? & ? & ? & ->).
  destruct (length9 _ EL) as (? & ? & ? & ? & ? & ? & ? & ? & ? & ->).
  destruct (length9 _ ER) as (? & ? & ? & ? & ? & ? & ? & ? & ? & ->).
  eexists. split; [exact E |].
  split; [reflexivity |].
  split; [reflexivity |].
  set (w := width screen). set (h := height screen).
  split.
  - cbn. unfold print_pos. cbn. fold w h.
    repeat (constructor; [not_in_positions |]). constructor.
  - intros Hw Hh. cbn. fold w h.
    repeat (constructor; [cbn; lia |]). constructor.
Qed.

Lemma panels_are_printed_witness :
  exists calls,
    draw_panels (Build_Screen 80 24) (panels (run_keys [] rubik_cube)) = Some calls /\
    Forall (fun c => (0 <= print_x c < 80)%Z /\ (0 <= print_y c < 24)%Z) calls.
Proof.
  destruct (panels_are_printed [] (Build_Screen 80 24)) as (calls & E & _ & _ & _ & H).
  exists calls. split; [exact E |]. apply H; simpl; lia.
Defined.

(** ** The stickers are conserved *)

Lemma turn_back_spec (ax : axis) (cw : bool) (d : dir) :
  mdot (rotation_about ax (IZR (direction_of cw) * PI / 2)) (dir_vec (turn_back ax cw d))
  = dir_vec d.
Proof.
  rewrite mdot_quarter by apply direction_of_cases.
  destruct ax, cw, d; unfold quarter; simpl; apply vec_eq; lra.
Qed.

(** After a twist a place shows what the place it was fed from showed. *)
Lemma shown_twist (ax : axis) (idx : ix) (cw : bool) (g : grid) (s : ix * ix * ix * dir) :
  shown (twist ax idx cw g) s = shown g (move_slot ax idx cw s).
Proof.
  destruct s as [[[i j] k] d]. unfold shown, move_slot. cbn [fst snd get3c in_layer_c].
  rewrite twist_cell.
  destruct (in_layer ax idx i j k); [| reflexivity].
  cbn [fst snd source_cell_c].
  rewrite <- (turn_back_spec ax cw d) at 1. apply get_face_colour_rotate.
Qed.

(** A twist only rearranges the 54 places. *)
Lemma slots_permuted (ax : axis) (idx : ix) (cw : bool) :
  Permutation (map (move_slot ax idx cw) sticker_slots) sticker_slots.
Proof.
  apply (Permutation_count_occ slot_eq_dec).
  intros [[[i j] k] d].
  destruct ax, idx, cw, i, j, k, d; vm_compute; reflexivity.
Qed.

Lemma shown_start (s : ix * ix * ix * dir) :
  shown rubik_cube s = Some (colour_of_dir (snd s)).
Proof.
  destruct s as [[[i j] k] d]. unfold shown. cbn [fst snd get3c].
  rewrite rubik_cube_cell.
  destruct d;
    [ rewrite (get_face_colour_of_normal _ "right"%string)
    | rewrite (get_face_colour_of_normal _ "left"%string)
    | rewrite (get_face_colour_of_normal _ "top"%string)
    | rewrite (get_face_colour_of_normal _ "bottom"%string)
    | rewrite (get_face_colour_of_normal _ "front"%string)
    | rewrite (get_face_colour_of_normal _ "back"%string) ];
    first [ reflexivity | apply frame_ok_init | simpl; auto 10 ].
Qed.

Lemma stickers_conserved (keys : list Z) :
  Permutation (map (shown (run_keys keys rubik_cube)) sticker_slots)
              (map Some solved_colours).
Proof.
  apply (run_keys_invariant
           (fun g => Permutation (map (shown g) sticker_slots) (map Some solved_colours))).
  - intros ax idx cw g Hg.
    apply perm_trans with (map (shown g) sticker_slots); [| exact Hg].
    rewrite (map_ext _ _ (shown_twist ax idx cw g)).
    rewrite <- map_map. apply Permutation_map. apply slots_permuted.
  - rewrite (map_ext _ _ shown_start). apply Permutation_refl.
Qed.

Lemma panel_calls_colours (screen : Screen) (letter : string) (dx dy : Z)
  (cols : list Colour) :
  map print_colour (panel_calls screen letter dx dy cols) = cols.
Proof.
  unfold panel_calls, enumerate. rewrite map_map. simpl.
  generalize 0%nat. induction cols as [| c cols IH]; intros n; simpl;
    [reflexivity | f_equal; apply IH].
Qed.

Lemma map_Some_inj {A : Type} (l l' : list A) : map Some l = map Some l' -> l = l'.
Proof.
  revert l'. induction l as [| x l IH]; intros [| y l'] H; simpl in H;
    try discriminate; [reflexivity |].
  inversion H; subst. f_equal. apply IH. assumption.
Qed.

(** X20.  Twists conserve the stickers.  After any sequence of key events
    the colours the six panels print are a rearrangement of the 54
    stickers of the cube at start-up: each of green, red, blue, magenta,
    yellow and white is printed exactly nine times.  At start-up the
    panels are uniform: top green, front red, bottom blue, rear magenta,
    left yellow, right white. *)
Theorem stickers_are_conserved (keys : list Z) (screen : Screen) :
  exists calls,
    draw_panels screen (panels (run_keys keys rubik_cube)) = Some calls /\
    Permutation (map print_colour calls) solved_colours /\
    Forall (fun col => count_occ colour_eq_dec (map print_colour calls) col = 9%nat)
           [COLOUR_GREEN; COLOUR_RED; COLOUR_BLUE; COLOUR_MAGENTA;
            COLOUR_YELLOW; COLOUR_WHITE] /\
    (keys = [] -> map print_colour calls = solved_colours).
Proof.
  set (g := run_keys keys rubik_cube).
  destruct (draw_panels_eval keys screen)
    as (cT & cF & cD & cB & cL & cR & ET & EF & ED & EB & EL & ER & E).
  fold g in ET, EF, ED, EB, EL, ER, E.
  eexists. split; [exact E |].
  rewrite !map_app, !panel_calls_colours. simpl map. rewrite app_nil_r.
  assert (S : map Some (cT ++ cF ++ cD ++ cB ++ cL ++ cR) = map (shown g) sticker_slots).
  { destruct (layers_are_cells g) as (Ht & Hf & Hb & Hr & Hl & Hrt).
    apply all_of_spec in ET, EF, ED, EB, EL, ER.
    destruct ET as [ET _], EF as [EF _], ED as [ED _], EB as [EB _], EL as [EL _],
             ER as [ER _].
    rewrite Ht in ET. rewrite Hf in EF. rewrite Hb in ED.
    rewrite Hr in EB. rewrite Hl in EL. rewrite Hrt in ER.
    rewrite map_map in ET, EF, ED, EB, EL, ER.
    unfold sticker_slots. rewrite !map_app, !map_map.
    rewrite <- ET, <- EF, <- ED, <- EB, <- EL, <- ER. reflexivity. }
  assert (P : Permutation (cT ++ cF ++ cD ++ cB ++ cL ++ cR) solved_colours).
  { pose proof (stickers_conserved keys) as H. fold g in H. rewrite <- S in H.
    apply Permutation_sym in H. apply Permutation_map_inv in H.
    destruct H as (l3 & E3 & H3). apply map_Some_inj in E3. subst l3.
    exact H3. }
  split; [exact P |].
  split.
  - repeat (constructor;
            [rewrite (proj1 (Permutation_count_occ colour_eq_dec _ _) P); reflexivity |]).
    constructor.
  - intros ->. apply map_Some_inj. rewrite S. unfold g. simpl run_keys.
    rewrite (map_ext _ _ shown_start). reflexivity.
Qed.

Lemma stickers_are_conserved_witness :
  exists calls,
    draw_panels (Build_Screen 80 24) (panels (run_keys [] rubik_cube)) = Some calls /\
    map print_colour calls = solved_colours.
Proof.
  destruct (stickers_are_conserved [] (Build_Screen 80 24)) as (calls & E & _ & _ & H).
  exists calls. split; [exact E | apply H; reflexivity].
Defined.

(** ** The first version of the program *)

Lemma depth_bound (z pos p : vec) (D : R) :
  inner z z = 1 -> pos = vscale (- D) z -> inner p p <= 27 / 4 ->
  D - 3 < inner z (vsub p pos).
Proof.
  intros Hz Hp Hb. rewrite inner_vsub_r, Hp, inner_vscale_r, Hz.
  pose proof (cauchy_schwarz z p) as H. rewrite Hz in H.
  set (e := inner z p) in *. nra.
Qed.

Lemma legacy_line_ok (a : Legacy.Artist) (p q : vec) :
  legacy_camera_ok a -> inner p p <= 27 / 4 -> inner q q <= 27 / 4 ->
  exists calls, Legacy.line a p q = Some calls /\ List.length calls = 2%nat.
Proof.
  intros [Hz Hpos] Hp Hq.
  pose proof (depth_bound _ _ p _ Hz Hpos Hp) as Dp.
  pose proof (depth_bound _ _ q _ Hz Hpos Hq) as Dq.
  unfold LegacyCube.distance_to_camera in Dp, Dq.
  unfold Legacy.line, Legacy.project3d.
  destruct (Rlt_dec _ _) as [H | _];
    [exfalso; rewrite Rabs_pos_eq in H; lra |].
  destruct (Rlt_dec _ _) as [H | _];
    [exfalso; rewrite Rabs_pos_eq in H; lra |].
  eexists. split; reflexivity.
Qed.

Lemma legacy_lines_ok (a : Legacy.Artist) (pairs : list (vec * vec)) :
  legacy_camera_ok a ->
  (forall e, In e pairs -> inner (fst e) (fst e) <= 27 / 4 /\
                           inner (snd e) (snd e) <= 27 / 4) ->
  exists calls,
    LegacyCube.draw_lines a pairs = Some calls /\
    List.length calls = (2 * List.length pairs)%nat.
Proof.
  intros Ha. induction pairs as [| [p q] pairs IH]; intros H.
  - exists []. split; reflexivity.
  - destruct (H (p, q) (or_introl eq_refl)) as [Hp Hq]. simpl in Hp, Hq.
    destruct (legacy_line_ok a p q Ha Hp Hq) as (c1 & E1 & L1).
    destruct IH as (c2 & E2 & L2); [intros e He; apply H; right; assumption |].
    exists (c1 ++ c2). cbn [LegacyCube.draw_lines]. rewrite E1. cbn [and_then].
    rewrite E2. cbn [and_then]. split; [reflexivity |].
    rewrite length_app, L1, L2. simpl. lia.
Qed.

Lemma legacy_corners_bounded (cube : LegacyCube.GenericCube) (p : vec) :
  In cube LegacyCube.rubik_cube ->
  In p (LegacyCube.front cube ++ LegacyCube.back cube) ->
  inner p p <= 27 / 4.
Proof.
  intros Hc Hp. unfold LegacyCube.rubik_cube in Hc. simpl in Hc.
  repeat match goal with
         | H : _ \/ _ |- _ => destruct H as [H | H]
         | H : False |- _ => destruct H
         end; subst cube; simpl in Hp;
    repeat match goal with
           | H : _ \/ _ |- _ => destruct H as [H | H]
           | H : False |- _ => destruct H
           end; subst p; unfold inner, vadd, vdiv; simpl; lra.
Qed.

Lemma legacy_cube_shape (cube : LegacyCube.GenericCube) :
  In cube LegacyCube.rubik_cube ->
  List.length (LegacyCube.front cube) = 4%nat /\ List.length (LegacyCube.back cube) = 4%nat.
Proof.
  intros Hc. unfold LegacyCube.rubik_cube in Hc. simpl in Hc.
  repeat match goal with
         | H : _ \/ _ |- _ => destruct H as [H | H]
         | H : False |- _ => destruct H
         end; subst cube; split; reflexivity.
Qed.

Lemma legacy_camera_drag (screen : Screen) (drag : Z * Z) (a : Legacy.Artist) :
  legacy_camera_ok (LegacyCube.update_from_drag screen drag a).
Proof.
  unfold legacy_camera_ok, LegacyCube.update_from_drag. simpl.
  set (e := IZR (Z.max (width screen) (height screen))).
  destruct (frame_of_rotation (IZR (fst drag) / e * PI) (IZR (snd drag) / e * PI))
    as (_ & _ & H3 & _).
  split; [exact H3 |].
  unfold vscale, vneg. simpl. apply vec_eq; ring.
Qed.

Lemma legacy_camera_initial (screen : Screen) :
  legacy_camera_ok (LegacyCube.initial_artist screen).
Proof.
  unfold legacy_camera_ok, LegacyCube.initial_artist, LegacyCube.distance_to_camera.
  simpl. split; [unfold inner; simpl; lra |].
  unfold vscale. simpl. apply vec_eq; lra.
Qed.

Lemma legacy_draw_cage_ok (cube : LegacyCube.GenericCube) (a : Legacy.Artist) :
  legacy_camera_ok a -> In cube LegacyCube.rubik_cube ->
  exists calls, LegacyCube.draw_cage cube a = Some calls /\ List.length calls = 24%nat.
Proof.
  intros Ha Hc.
  destruct (legacy_cube_shape cube Hc) as [Hf Hb].
  destruct (length4 _ Hf) as (f1 & f2 & f3 & f4 & Ef).
  destruct (length4 _ Hb) as (b1 & b2 & b3 & b4 & Eb).
  assert (B : forall p, In p [f1; f2; f3; f4; b1; b2; b3; b4] -> inner p p <= 27 / 4).
  { intros p Hp. apply (legacy_corners_bounded cube p Hc). rewrite Ef, Eb. exact Hp. }
  unfold LegacyCube.draw_cage. rewrite Ef, Eb. cbn [closed_path and_then app combine].
  destruct (legacy_lines_ok a [(f1, f2); (f2, f3); (f3, f4); (f4, f1)] Ha)
    as (c1 & E1 & L1).
  { intros e He. simpl in He.
    repeat (destruct He as [He | He]; [subst e; split; apply B; simpl; tauto |]).
    destruct He. }
  destruct (legacy_lines_ok a [(b1, b2); (b2, b3); (b3, b4); (b4, b1)] Ha)
    as (c2 & E2 & L2).
  { intros e He. simpl in He.
    repeat (destruct He as [He | He]; [subst e; split; apply B; simpl; tauto |]).
    destruct He. }
  destruct (legacy_lines_ok a [(f1, b1); (f2, b2); (f3, b3); (f4, b4)] Ha)
    as (c3 & E3 & L3).
  { intros e He. simpl in He.
    repeat (destruct He as [He | He]; [subst e; split; apply B; simpl; tauto |]).
    destruct He. }
  rewrite E1. cbn [and_then]. rewrite E2. cbn [and_then]. rewrite E3. cbn [and_then].
  eexists. split; [reflexivity |].
  rewrite !length_app, L1, L2, L3. reflexivity.
Qed.

(** X21.  The first version never runs into its own guard.  Its assembly
    has 26 cubes (the centre is left out), with the corners the package
    gives a cube at the same place.  For the camera its loop starts with
    and for every camera a drag sets there, [draw_cage] of each cube
    succeeds with 24 calls, and a whole pass draws 624: no projection
    returns [None], so the unpacking in [Artist.line] never fails. *)
Theorem first_version_draws_every_cage (screen : Screen) (drag : Z * Z) (a : Legacy.Artist)
  (position : vec) :
  List.length LegacyCube.rubik_cube = 26%nat /\
  (LegacyCube.front (LegacyCube.TranslatedCube position) = Cube.front (Cube.init position) /\
   LegacyCube.back (LegacyCube.TranslatedCube position) = Cube.back (Cube.init position)) /\
  (forall cube artist,
      In cube LegacyCube.rubik_cube ->
      artist = LegacyCube.initial_artist screen \/
      artist = LegacyCube.update_from_drag screen drag a ->
      exists calls,
        LegacyCube.draw_cage cube artist = Some calls /\ List.length calls = 24%nat) /\
  (forall artist,
      artist = LegacyCube.initial_artist screen \/
      artist = LegacyCube.update_from_drag screen drag a ->
      exists calls,
        LegacyCube.draw_cubes artist LegacyCube.rubik_cube = Some calls /\
        List.length calls = 624%nat).
Proof.
  assert (Cam : forall artist,
             artist = LegacyCube.initial_artist screen \/
             artist = LegacyCube.update_from_drag screen drag a ->
             legacy_camera_ok artist).
  { intros artist [-> | ->]; [apply legacy_camera_initial | apply legacy_camera_drag]. }
  split; [reflexivity |].
  split; [split; reflexivity |].
  split.
  - intros cube artist Hc Ha. apply legacy_draw_cage_ok; auto.
  - intros artist Ha. specialize (Cam artist Ha).
    assert (G : forall cubes,
               (forall c, In c cubes -> In c LegacyCube.rubik_cube) ->
               exists calls,
                 LegacyCube.draw_cubes artist cubes = Some calls /\
                 List.length calls = (24 * List.length cubes)%nat).
    { induction cubes as [| c cubes IH]; intros H.
      - exists []. split; reflexivity.
      - destruct (legacy_draw_cage_ok c artist Cam (H c (or_introl eq_refl)))
          as (c1 & E1 & L1).
        destruct IH as (c2 & E2 & L2); [intros c' Hc'; apply H; right; assumption |].
        exists (c1 ++ c2). cbn [LegacyCube.draw_cubes]. rewrite E1. cbn [and_then].
        rewrite E2. cbn [and_then]. split; [reflexivity |].
        rewrite length_app, L1, L2. simpl. lia. }
    destruct (G LegacyCube.rubik_cube (fun c H => H)) as (calls & E & L).
    exists calls. split; [exact E |]. rewrite L. reflexivity.
Qed.

Lemma first_version_draws_every_cage_witness :
  let screen := Build_Screen 80 24 in
  exists calls,
    LegacyCube.draw_cubes (LegacyCube.initial_artist screen) LegacyCube.rubik_cube
    = Some calls /\
    List.length calls = 624%nat.
Proof.
  intros screen.
  apply (proj2 (proj2 (proj2
           (first_version_draws_every_cage screen (0, 0)%Z
              (LegacyCube.initial_artist screen) (V3 0 0 0))))).
  left. reflexivity.
Defined.

(** ** Instances with the camera of a new artist *)

Lemma reset_camera_not_origin (a : Artist.t) :
  Artist.camera_position (Artist.set_initial_camera a) <> V3 0 0 0.
Proof.
  intros E. apply (reset_camera_off_axis a). rewrite E. reflexivity.
Qed.

Lemma block_faces_are_filled_witness :
  let a := Artist.init (Build_Screen 80 24) in
  exists fills,
    draw_block_faces (get3 (run_keys [] rubik_cube) i0 i0 i0) a = Some fills /\
    fills <> [].
Proof.
  intros a.
  destruct (block_faces_are_filled [] i0 i0 i0 a) as (fills & E & _ & _ & _ & _ & H).
  exists fills. split; [exact E |]. apply H. apply reset_camera_not_origin.
Defined.

Lemma frame_is_drawn_witness :
  let a := Artist.init (Build_Screen 80 24) in
  exists calls,
    draw_frame a (run_keys [] rubik_cube) = Some calls /\ stroked_of calls = [].
Proof.
  intros a.
  destruct (frame_is_drawn [] a) as (calls & E & _ & H & _).
  exists calls. split; [exact E |]. apply H. apply reset_camera_off_axis.
Defined.
